(** * Ying-Yang volatility trading bot: a shallow embedding of
    [class_yingyangvol.py] (class [YingYangTradingBot]).

    Numbers are modelled as exact real numbers ([R]); a pandas cell is an
    [option R], with [None] standing for a missing value (NaN).  A pandas
    [Series] indexed by candle timestamps is an association list from [Z]
    to cells.  The bot object is a record, and its methods are state
    transformers that may raise a Python exception. *)

From Stdlib Require Import String Ascii Reals Lra Lia ZArith Bool List DecimalString.
Import ListNotations.
Open Scope R_scope.

(** ** Cells: pandas values that may be missing *)

Definition cell := option R.

Definition cell_lift2 (f : R -> R -> R) (a b : cell) : cell :=
  match a, b with
  | Some x, Some y => Some (f x y)
  | _, _ => None
  end.

Definition cell_map (f : R -> R) (a : cell) : cell :=
  match a with Some x => Some (f x) | None => None end.

(** [a / b]: the only division of the program is the oscillator's, whose
    numerator is zero whenever its denominator is (see [total_zero_yang_ying]),
    so a zero denominator gives [0/0 = NaN]. *)
Definition cell_div (a b : cell) : cell :=
  match a, b with
  | Some x, Some y => if Req_EM_T y 0 then None else Some (x / y)
  | _, _ => None
  end.

(** [np.sqrt]: NaN on a negative argument. *)
Definition sqrt_cell (a : cell) : cell :=
  match a with
  | Some x => if Rlt_dec x 0 then None else Some (sqrt x)
  | None => None
  end.

(** [diff**2 * (diff > 0)] and [diff**2 * (diff <= 0)]: a boolean mask
    multiplied in as 1 or 0; a NaN difference stays NaN. *)
Definition pos_part_sq (d : cell) : cell :=
  cell_map (fun x => x ^ 2 * (if Rgt_dec x 0 then 1 else 0)) d.

Definition neg_part_sq (d : cell) : cell :=
  cell_map (fun x => x ^ 2 * (if Rle_dec x 0 then 1 else 0)) d.

Fixpoint zip_with {A B C : Type} (f : A -> B -> C) (xs : list A) (ys : list B)
  : list C :=
  match xs, ys with
  | x :: xs', y :: ys' => f x y :: zip_with f xs' ys'
  | _, _ => []
  end.

(** ** Rolling and exponential means *)

Definition sum (l : list R) : R := fold_right Rplus 0 l.

Fixpoint somes (l : list cell) : list R :=
  match l with
  | [] => []
  | Some x :: l' => x :: somes l'
  | None :: l' => somes l'
  end.

(** The cells of the trailing window of [w] observations ending at [t]
    (fewer at the start of the series). *)
Definition window_cells (w : nat) (xs : list cell) (t : nat) : list cell :=
  map (fun j => nth j xs None) (seq (S t - w) (S t - (S t - w))).

(** [s.rolling(window=w).mean()] at position [t]: [min_periods] defaults to
    [w]; the mean of the non-missing observations of the window, missing when
    there are fewer than [w] of them (or none at all). *)
Definition window_mean (w : nat) (xs : list cell) (t : nat) : cell :=
  let obs := somes (window_cells w xs t) in
  if (w <=? length obs)%nat && (0 <? length obs)%nat
  then Some (sum obs / INR (length obs))
  else None.

Definition rolling_mean (w : nat) (xs : list cell) : list cell :=
  map (window_mean w xs) (seq 0 (length xs)).

(** [s.ewm(span=n, adjust=False).mean()] on a series without missing
    values: [y0 = x0], [yt = (1 - a) y(t-1) + a xt] with [a = 2/(n+1)]. *)
Definition ewm_alpha (n : nat) : R := 2 / (INR n + 1).

Fixpoint ewm_from (a prev : R) (xs : list R) : list R :=
  match xs with
  | [] => []
  | x :: xs' => let y := (1 - a) * prev + a * x in y :: ewm_from a y xs'
  end.

Definition ewm_mean (n : nat) (xs : list R) : list R :=
  match xs with
  | [] => []
  | x :: xs' => x :: ewm_from (ewm_alpha n) x xs'
  end.

(** ** Price data *)

Record PriceRecord := {
  ts : Z;
  open_ : R;
  high : R;
  low : R;
  close : R
}.

Definition Price := list PriceRecord.

Definition closes (p : Price) : list R := map close p.
Definition index (p : Price) : list Z := map ts p.

(** ** VolatilityEngine: [calculate_volatility], lines 72-94 *)

Record VolRow := {
  ma : cell;
  yang_vol : cell;
  ying_vol : cell;
  total_vol : cell;
  YYL : cell;
  YYL_slow : cell
}.

Definition VolFrame := list (Z * VolRow).

Section Columns.
Variables (ema : bool) (window span : nat) (price_close : list R).

Definition ma_col : list cell :=
  if ema then map Some (ewm_mean window price_close)
  else rolling_mean window (map Some price_close).

Definition diff_col : list cell :=
  zip_with (cell_lift2 Rminus) (map Some price_close) ma_col.

Definition yang_col : list cell :=
  map sqrt_cell (rolling_mean window (map pos_part_sq diff_col)).

Definition ying_col : list cell :=
  map sqrt_cell (rolling_mean window (map neg_part_sq diff_col)).

Definition total_col : list cell :=
  map sqrt_cell
    (zip_with (cell_lift2 Rplus) (map (cell_map (fun v => v ^ 2)) yang_col)
       (map (cell_map (fun v => v ^ 2)) ying_col)).

Definition YYL_col : list cell :=
  map (cell_map (fun v => v * 100))
    (zip_with cell_div (zip_with (cell_lift2 Rminus) yang_col ying_col) total_col).

Definition YYL_slow_col : list cell := rolling_mean span YYL_col.
End Columns.

(** [pd.DataFrame({...})] on the price index. *)
Definition volatility_frame (ema : bool) (window span : nat) (p : Price) : VolFrame :=
  let c := closes p in
  map (fun t =>
         (nth t (index p) 0%Z,
          {| ma := nth t (ma_col ema window c) None;
             yang_vol := nth t (yang_col ema window c) None;
             ying_vol := nth t (ying_col ema window c) None;
             total_vol := nth t (total_col ema window c) None;
             YYL := nth t (YYL_col ema window c) None;
             YYL_slow := nth t (YYL_slow_col ema window span c) None |}))
      (seq 0 (length p)).

(** ** Index-aligned series *)

Definition Series := list (Z * cell).

Fixpoint lookup {A : Type} (k : Z) (s : list (Z * A)) : option A :=
  match s with
  | [] => None
  | (j, v) :: s' => if Z.eqb j k then Some v else lookup k s'
  end.

(** [s[k]]; a timestamp missing from the index reads as NaN after alignment. *)
Definition get (k : Z) (s : Series) : cell :=
  match lookup k s with Some c => c | None => None end.

Definition keys {A : Type} (s : list (Z * A)) : list Z := map fst s.

(** [Index.union] of two increasing indexes: their sorted merge. *)
Fixpoint union_idx (a : list Z) : list Z -> list Z :=
  match a with
  | [] => fun b => b
  | x :: a' =>
      fix go (b : list Z) : list Z :=
        match b with
        | [] => x :: a'
        | y :: b' =>
            if (x <? y)%Z then x :: union_idx a' b
            else if (y <? x)%Z then y :: go b'
            else x :: union_idx a' b'
        end
  end.

(** A binary operator between two series: pandas first aligns both on the
    union of their indexes, with NaN where a series lacks a timestamp. *)
Definition align (f : R -> R -> R) (a b : Series) : Series :=
  map (fun k => (k, cell_lift2 f (get k a) (get k b))) (union_idx (keys a) (keys b)).

Definition series_map (f : R -> R) (s : Series) : Series :=
  map (fun '(k, c) => (k, cell_map f c)) s.

Definition column {A : Type} (f : A -> cell) (fr : list (Z * A)) : Series :=
  map (fun '(k, r) => (k, f r)) fr.

Definition close_series (p : Price) : Series := combine (index p) (map Some (closes p)).

(** ** BandEngine: [calculate_pan_bands], lines 102-111 *)

Record BandRow := {
  upper_band : cell;
  lower_band : cell;
  pan_river_up : cell;
  pan_river_down : cell
}.

Definition BandFrame := list (Z * BandRow).

(** [self.price['close'].ewm(span=self.span, adjust=False).mean()] *)
Definition pan_baseline (span : nat) (p : Price) : Series :=
  combine (index p) (map Some (ewm_mean span (closes p))).

Definition band_frame (span : nat) (p : Price) (vf : VolFrame) : BandFrame :=
  let m := pan_baseline span p in
  let upper := align Rplus m (series_map (fun v => 2 * v) (column yang_vol vf)) in
  let lower := align Rminus m (series_map (fun v => 2 * v) (column ying_vol vf)) in
  let river_up := series_map (fun v => v / 2) (align Rplus m upper) in
  let river_down := series_map (fun v => v / 2) (align Rplus m lower) in
  map (fun k => (k, {| upper_band := get k upper;
                       lower_band := get k lower;
                       pan_river_up := get k river_up;
                       pan_river_down := get k river_down |}))
    (union_idx (keys upper)
       (union_idx (keys lower) (union_idx (keys river_up) (keys river_down)))).

(** ** SignalEngine: [trading_signal], lines 115-144 *)

Record JRow := {
  jv : VolRow;
  jb : BandRow;
  jclose : cell
}.

Definition JFrame := list (Z * JRow).

Definition nan_vol_row : VolRow := Build_VolRow None None None None None None.
Definition nan_band_row : BandRow := Build_BandRow None None None None.
Definition nan_jrow : JRow := Build_JRow nan_vol_row nan_band_row None.

Definition band_at (k : Z) (bf : BandFrame) : BandRow :=
  match lookup k bf with Some r => r | None => nan_band_row end.

(** [self.ying_yang_vol.join(self.pan_bands).join(self.price['close'])]:
    left joins on the volatility frame's index. *)
Definition join_input (vf : VolFrame) (bf : BandFrame) (p : Price) : JFrame :=
  map (fun '(k, v) => (k, {| jv := v; jb := band_at k bf; jclose := get k (close_series p) |})) vf.

Record SigRow := {
  Signal : cell;
  Position : cell;
  Entry_Price : cell;
  Exit_Price : cell
}.

Definition SigFrame := list (Z * SigRow).

Definition fill0 (c : cell) : cell := match c with Some x => Some x | None => Some 0 end.

(** [pd.DataFrame(index=df.index, columns=[...]).fillna(0)] *)
Definition initial_signals (df : JFrame) : SigFrame :=
  map (fun '(k, _) =>
         (k, {| Signal := fill0 None; Position := fill0 None;
                Entry_Price := fill0 None; Exit_Price := fill0 None |})) df.

(** The row function given to [df.apply]; comparisons with NaN are false. *)
Definition status_of (y s : cell) : Z :=
  match y, s with
  | Some a, Some b => if Rgt_dec a b then 1%Z else if Rlt_dec a b then (-1)%Z else 0%Z
  | _, _ => 0%Z
  end.

Definition status_col (df : JFrame) : list Z :=
  map (fun '(_, r) => status_of (YYL (jv r)) (YYL_slow (jv r))) df.

(** [status.shift(1)]: NaN first. *)
Definition shift1 (s : list Z) : list (option Z) :=
  match s with
  | [] => []
  | _ => None :: map Some (removelast s)
  end.

Definition cell_lt (c : cell) (b : R) : bool :=
  match c with Some x => if Rlt_dec x b then true else false | None => false end.

Definition cell_gt (c : cell) (b : R) : bool :=
  match c with Some x => if Rgt_dec x b then true else false | None => false end.

(** [signal_diff == a or signal_diff == b]; a NaN difference equals nothing. *)
Definition diff_is (d : option Z) (a b : Z) : bool :=
  match d with Some v => (v =? a)%Z || (v =? b)%Z | None => false end.

Fixpoint update_nth {A : Type} (i : nat) (f : A -> A) (l : list A) : list A :=
  match l, i with
  | [], _ => []
  | x :: l', O => f x :: l'
  | x :: l', S i' => x :: update_nth i' f l'
  end.

Definition set_buy (c : cell) (r : Z * SigRow) : Z * SigRow :=
  let '(k, s) := r in
  (k, {| Signal := Some 1; Position := Position s; Entry_Price := c; Exit_Price := Exit_Price s |}).

Definition set_sell (c : cell) (r : Z * SigRow) : Z * SigRow :=
  let '(k, s) := r in
  (k, {| Signal := Some (-1); Position := Position s; Entry_Price := Entry_Price s; Exit_Price := c |}).

(** One iteration of [for i in range(1, len(df))]; the chained assignments
    [signals['Signal'].iloc[i] = ...] write through to [signals]. *)
Definition signal_step (df : JFrame) (status : list Z) (prev_status : list (option Z))
    (sigs : SigFrame) (i : nat) : SigFrame :=
  let current_status := nth i status 0%Z in
  let previous_status := nth i prev_status None in
  let signal_diff := option_map (fun p => (current_status - p)%Z) previous_status in
  let row := snd (nth i df (0%Z, nan_jrow)) in
  if diff_is signal_diff 2 1 && cell_lt (YYL (jv row)) (-75) then
    update_nth i (set_buy (jclose row)) sigs
  else if diff_is signal_diff (-2) (-1) && cell_gt (YYL (jv row)) 75 then
    update_nth i (set_sell (jclose row)) sigs
  else sigs.

Definition signal_frame (df : JFrame) : SigFrame :=
  let status := status_col df in
  let prev_status := shift1 status in
  fold_left (signal_step df status prev_status) (seq 1 (length df - 1)) (initial_signals df).

(** ** SignalSummarizer: the rows joined by [get_last_signal], lines 149-161 *)

Record FullRow := {
  fv : VolRow;
  fb : BandRow;
  fclose : cell;
  fs : SigRow
}.

Definition nan_sig_row : SigRow := Build_SigRow None None None None.

Definition sig_at (k : Z) (sg : SigFrame) : SigRow :=
  match lookup k sg with Some r => r | None => nan_sig_row end.

Definition join_all (vf : VolFrame) (bf : BandFrame) (p : Price) (sg : SigFrame)
  : list (Z * FullRow) :=
  map (fun '(k, v) =>
         (k, {| fv := v; fb := band_at k bf; fclose := get k (close_series p);
                fs := sig_at k sg |})) vf.

Definition row_cells (r : FullRow) : list cell :=
  [ma (fv r); yang_vol (fv r); ying_vol (fv r); total_vol (fv r); YYL (fv r);
   YYL_slow (fv r); upper_band (fb r); lower_band (fb r); pan_river_up (fb r);
   pan_river_down (fb r); fclose r; Signal (fs r); Position (fs r);
   Entry_Price (fs r); Exit_Price (fs r)].

(** [.dropna()]: keep the rows without a missing value. *)
Definition dropna (rows : list (Z * FullRow)) : list (Z * FullRow) :=
  filter (fun '(_, r) => forallb (fun c => match c with Some _ => true | None => false end)
                            (row_cells r)) rows.

Definition last_opt {A : Type} (l : list A) : option A :=
  match l with [] => None | x :: l' => Some (last l' x) end.

Definition direction (v : cell) : string :=
  match v with
  | Some x => if Req_EM_T x 1 then "Buy" else if Req_EM_T x (-1) then "Sell" else "No Signal"
  | None => "No Signal"
  end.

Record Summary := {
  Ticker : string;
  last_signal_text : string;
  timestamp : Z;
  entry_price : cell
}.

(** ** The bot object and its methods *)

Record Bot := {
  symbol : string;
  ema : bool;
  window : Z;
  span : Z;
  price : option Price;
  ying_yang_vol : option VolFrame;
  pan_bands : option BandFrame;
  signals : option SigFrame;
  last_signal : option Summary
}.

Definition set_price (st : Bot) (p : option Price) : Bot :=
  {| symbol := symbol st; ema := ema st; window := window st; span := span st;
     price := p; ying_yang_vol := ying_yang_vol st; pan_bands := pan_bands st;
     signals := signals st; last_signal := last_signal st |}.

Definition set_vol (st : Bot) (v : VolFrame) : Bot :=
  {| symbol := symbol st; ema := ema st; window := window st; span := span st;
     price := price st; ying_yang_vol := Some v; pan_bands := pan_bands st;
     signals := signals st; last_signal := last_signal st |}.

Definition set_bands (st : Bot) (b : BandFrame) : Bot :=
  {| symbol := symbol st; ema := ema st; window := window st; span := span st;
     price := price st; ying_yang_vol := ying_yang_vol st; pan_bands := Some b;
     signals := signals st; last_signal := last_signal st |}.

Definition set_signals (st : Bot) (s : SigFrame) : Bot :=
  {| symbol := symbol st; ema := ema st; window := window st; span := span st;
     price := price st; ying_yang_vol := ying_yang_vol st; pan_bands := pan_bands st;
     signals := Some s; last_signal := last_signal st |}.

Definition set_last (st : Bot) (s : Summary) : Bot :=
  {| symbol := symbol st; ema := ema st; window := window st; span := span st;
     price := price st; ying_yang_vol := ying_yang_vol st; pan_bands := pan_bands st;
     signals := signals st; last_signal := Some s |}.

(** The fields [__init__] sets before it talks to the exchange. *)
Definition init_bot (sym : string) (use_ema : bool) (w s : Z) : Bot :=
  {| symbol := sym; ema := use_ema; window := w; span := s; price := None;
     ying_yang_vol := None; pan_bands := None; signals := None; last_signal := None |}.

Inductive exn :=
| ValueError (msg : string)
| TypeError
| AttributeError
| IndexError.

Inductive result (A : Type) :=
| Ok (a : A)
| Err (e : exn).
Arguments Ok {A} a.
Arguments Err {A} e.

(** A method call: the state after it, and its value or the exception it
    raised (attributes assigned before a [raise] stay assigned). *)
Definition M (A : Type) := Bot -> result A * Bot.

Definition ret {A : Type} (a : A) : M A := fun st => (Ok a, st).
Definition raise {A : Type} (e : exn) : M A := fun st => (Err e, st).
Definition get_bot : M Bot := fun st => (Ok st, st).
Definition put_bot (st : Bot) : M unit := fun _ => (Ok tt, st).
Definition bind {A B : Type} (m : M A) (k : A -> M B) : M B :=
  fun st => match m st with
            | (Ok a, st') => k a st'
            | (Err e, st') => (Err e, st')
            end.

Notation "x <- m ;; k" := (bind m (fun x => k))
  (at level 61, m at next level, right associativity).

Definition is_empty (p : Price) : bool := match p with [] => true | _ => false end.

(** [download_data], with [pyupbit.get_ohlcv]'s answer as argument. *)
Definition download_data (fetched : option Price) : M Price :=
  st <- get_bot ;;
  _ <- put_bot (set_price st fetched) ;;
  match fetched with
  | Some p => if is_empty p then raise (ValueError "Failed to download data") else ret p
  | None => raise (ValueError "Failed to download data")
  end.

Definition calculate_volatility : M VolFrame :=
  st <- get_bot ;;
  match price st with
  | None => raise (ValueError "Price data is not available.")
  | Some p =>
      if is_empty p then raise (ValueError "Price data is not available.")
      (* pandas' own argument checks: ewm(span=...) needs span >= 1,
         rolling(window=...) needs window >= 0 *)
      else if ema st && (window st <? 1)%Z then raise (ValueError "span must satisfy: span >= 1")
      else if (window st <? 0)%Z then raise (ValueError "window must be an integer 0 or greater")
      else if (span st <? 0)%Z then raise (ValueError "window must be an integer 0 or greater")
      else
        let vf := volatility_frame (ema st) (Z.to_nat (window st)) (Z.to_nat (span st)) p in
        _ <- put_bot (set_vol st vf) ;;
        ret vf
  end.

Definition calculate_pan_bands : M BandFrame :=
  st <- get_bot ;;
  match ying_yang_vol st with
  | None => raise (ValueError "Volatility must be calculated before Pan Bands.")
  | Some vf =>
      match price st with
      | None => raise TypeError
      | Some p =>
          if (span st <? 1)%Z then raise (ValueError "span must satisfy: span >= 1")
          else
            let bf := band_frame (Z.to_nat (span st)) p vf in
            _ <- put_bot (set_bands st bf) ;;
            ret bf
      end
  end.

(** The frame [df] that [trading_signal] builds, when the attributes it
    reads are set. *)
Definition signal_input (st : Bot) : option JFrame :=
  match ying_yang_vol st, pan_bands st, price st with
  | Some vf, Some bf, Some p => Some (join_input vf bf p)
  | _, _, _ => None
  end.

Definition trading_signal : M SigFrame :=
  st <- get_bot ;;
  match ying_yang_vol st, pan_bands st with
  | Some vf, Some bf =>
      match price st with
      | None => raise TypeError
      | Some p =>
          let sg := signal_frame (join_input vf bf p) in
          _ <- put_bot (set_signals st sg) ;;
          ret sg
      end
  | _, _ => raise (ValueError "Volatility and Pan Bands must be calculated before generating signals.")
  end.

(** The rows left after [.join(...).dropna()] in [get_last_signal]. *)
Definition cleaned_rows (st : Bot) : option (list (Z * FullRow)) :=
  match ying_yang_vol st, pan_bands st, price st, signals st with
  | Some vf, Some bf, Some p, Some sg => Some (dropna (join_all vf bf p sg))
  | _, _, _, _ => None
  end.

Definition summary_of (sym : string) (k : Z) (r : FullRow) : Summary :=
  {| Ticker := sym; last_signal_text := direction (Signal (fs r));
     timestamp := k; entry_price := fclose r |}.

Definition get_last_signal : M Summary :=
  st <- get_bot ;;
  match signals st with
  | None => raise (ValueError "Trading signals must be generated before getting last signal.")
  | Some sg =>
      match ying_yang_vol st, pan_bands st, price st with
      | None, _, _ => raise AttributeError
      | _, _, None => raise TypeError
      | _, None, _ => raise TypeError
      | Some vf, Some bf, Some p =>
          (* [df.index[-1]] on an empty frame raises IndexError *)
          match last_opt (dropna (join_all vf bf p sg)) with
          | None => raise IndexError
          | Some (k, r) =>
              let s := summary_of (symbol st) k r in
              _ <- put_bot (set_last st s) ;;
              ret s
          end
      end
  end.

(** ** Reading the signal engine *)

(** The update [signal_step] applies at row [i], if any. *)
Definition signal_update (df : JFrame) (status : list Z) (prev_status : list (option Z))
    (i : nat) : option (Z * SigRow -> Z * SigRow) :=
  let current_status := nth i status 0%Z in
  let previous_status := nth i prev_status None in
  let signal_diff := option_map (fun p => (current_status - p)%Z) previous_status in
  let row := snd (nth i df (0%Z, nan_jrow)) in
  if diff_is signal_diff 2 1 && cell_lt (YYL (jv row)) (-75) then Some (set_buy (jclose row))
  else if diff_is signal_diff (-2) (-1) && cell_gt (YYL (jv row)) 75 then Some (set_sell (jclose row))
  else None.

Definition zero_sig_row : SigRow := Build_SigRow (Some 0) (Some 0) (Some 0) (Some 0).

Definition buy_row (c : cell) : SigRow := Build_SigRow (Some 1) (Some 0) c (Some 0).
Definition sell_row (c : cell) : SigRow := Build_SigRow (Some (-1)) (Some 0) (Some 0) c.

Definition apply_opt {A : Type} (u : option (A -> A)) (x : A) : A :=
  match u with Some f => f x | None => x end.

Definition jrow_at (df : JFrame) (t : nat) : JRow := snd (nth t df (0%Z, nan_jrow)).

Definition status_at (df : JFrame) (t : nat) : Z :=
  status_of (YYL (jv (jrow_at df t))) (YYL_slow (jv (jrow_at df t))).

(** The status of a row as the specification words it. *)
Definition status_spec (y s : cell) (v : Z) : Prop :=
  (exists a b, y = Some a /\ s = Some b /\
     ((a > b /\ v = 1%Z) \/ (a < b /\ v = (-1)%Z) \/ (a = b /\ v = 0%Z))) \/
  ((y = None \/ s = None) /\ v = 0%Z).

(** A Buy at [t]: an upward status change of 1 or 2 while YYL < -75. *)
Definition buy_condition (df : JFrame) (t : nat) : Prop :=
  (1 <= t)%nat /\
  (let d := (status_at df t - status_at df (t - 1))%Z in d = 1%Z \/ d = 2%Z) /\
  exists y, YYL (jv (jrow_at df t)) = Some y /\ y < -75.

(** A Sell at [t]: a downward status change of 1 or 2 while YYL > 75. *)
Definition sell_condition (df : JFrame) (t : nat) : Prop :=
  (1 <= t)%nat /\
  (let d := (status_at df t - status_at df (t - 1))%Z in d = (-1)%Z \/ d = (-2)%Z) /\
  exists y, YYL (jv (jrow_at df t)) = Some y /\ y > 75.

(** * The bot's environment: exchange, Notion, Telegram, scheduler *)

(** ** Python values the outer code handles *)

(** The answer of a library call: the value it returned, or the message
    of the exception it raised. *)
Inductive Response (A : Type) :=
| Returned (a : A)
| Raised (msg : string).
Arguments Returned {A} a.
Arguments Raised {A} msg.

(** A JSON object returned by the exchange: its keys and printed values. *)
Definition Dict := list (string * string).

(** [k in d] *)
Definition dict_has (k : string) (d : Dict) : bool :=
  existsb (fun kv => String.eqb (fst kv) k) d.

(** [d.get(k, default)] *)
Definition dict_get (k : string) (d : Dict) (default : string) : string :=
  match find (fun kv => String.eqb (fst kv) k) d with
  | Some kv => snd kv
  | None => default
  end.

(** The truth value of an order answer: [None] and [{}] are false. *)
Definition dict_truthy (o : option Dict) : bool :=
  match o with Some (_ :: _) => true | _ => false end.

(** The truth value of [get_balances()]: [None] and [[]] are false. *)
Definition list_truthy {A : Type} (o : option (list A)) : bool :=
  match o with Some (_ :: _) => true | _ => false end.

(** The truth value of [os.getenv(name)]: [None] and [""] are false. *)
Definition str_truthy (o : option string) : bool :=
  match o with Some (String _ _) => true | _ => false end.

(** [s.split(sep)] *)
Fixpoint py_split (sep : ascii) (s : string) : list string :=
  match s with
  | EmptyString => [EmptyString]
  | String c s' =>
      let rest := py_split sep s' in
      if Ascii.eqb c sep then EmptyString :: rest
      else match rest with
           | w :: ws => String c w :: ws
           | [] => [String c EmptyString]
           end
  end.

(** [f"{n}"] for an integer. *)
Definition z_str (n : Z) : string := NilEmpty.string_of_int (Z.to_int n).

(** ** Binding the arguments of a call (CPython's [initialize_locals]) *)

(** The [TypeError]s of a call whose arguments do not fit the signature. *)
Inductive BindError :=
| UnexpectedKeyword (name : string)
| MultipleValues (name : string)
| TooManyPositional
| MissingArgument (name : string).

Fixpoint index_of (k : string) (l : list string) : option nat :=
  match l with
  | [] => None
  | x :: xs => if String.eqb x k then Some O else option_map S (index_of k xs)
  end.

(** Keyword arguments, in the order of the call: each must name a
    parameter not already filled by a positional argument. *)
Fixpoint check_keywords (params : list (string * bool)) (npos : nat)
    (kws : list string) : option BindError :=
  match kws with
  | [] => None
  | k :: ks =>
      match index_of k (map fst params) with
      | None => Some (UnexpectedKeyword k)
      | Some i => if Nat.ltb i npos then Some (MultipleValues k)
                  else check_keywords params npos ks
      end
  end.

(** The error of a call with [npos] positional arguments and the keyword
    arguments [kws] to a function whose parameters (after [self]) are
    [params], each with whether it has a default; [None] if it binds. *)
Definition bind_args (params : list (string * bool)) (npos : nat)
    (kws : list string) : option BindError :=
  match check_keywords params npos kws with
  | Some e => Some e
  | None =>
      if Nat.ltb (length params) npos then Some TooManyPositional
      else match find (fun p => negb (snd p) && negb (existsb (String.eqb (fst p)) kws))
                   (skipn npos params) with
           | Some p => Some (MissingArgument (fst p))
           | None => None
           end
  end.

(** [def __init__(self, symbol, interval, count, ema=True, window=20, span=10)] *)
Definition init_params : list (string * bool) :=
  [("symbol", false); ("interval", false); ("count", false);
   ("ema", true); ("window", true); ("span", true)]%string.

(** ** What the bot reports *)

(** Exceptions beyond the bot's own: raised inside a library call, by a
    call whose arguments do not bind, or by [input()] at end of file. *)
Inductive exc :=
| Exc (e : exn)
| External (msg : string)
| BindTypeError (b : BindError)
| EOFError.

(** The strings [execute_trade] returns, by the values they interpolate:
    [f"Bought {symbol} for {amount} KRW (30% of balance)"],
    [f"Sold {btc_balance} {symbol}"],
    [f"No trade executed. Current position: {position}, Signal: {signal}"]
    and [f"Trade execution failed: {e}"]. *)
Inductive TradeResult :=
| Bought (sym : string) (amount : R)
| Sold (volume : R) (sym : string)
| NoTrade (position signal : string)
| TradeFailed (e : exc).

(** The properties of the page [notion_update] creates. *)
Record NotionPage := {
  database_id : option string;
  page_ticker : string;
  page_signal_time : Z;
  page_last_signal : string;
  page_entry_price : cell;
  page_YYL : cell;
  page_YYL_slow : cell;
  page_position : string;
  page_interval : string
}.

(** The Telegram texts, by the values they interpolate: the update [run]
    composes, [f"ERROR: Error in bot execution: {e}"], and [main]'s start
    message (with [datetime.now()] and the interval). *)
Inductive Message :=
| BotUpdate (sym interval signal : string) (price : cell) (ts : Z)
    (yyl yyl_slow : cell) (position : string) (trade : TradeResult)
| BotError (e : exc)
| BotStarted (start_time : Z) (interval_minutes : Z).

(** Lines printed by [ec2_autobot]: a literal text,
    [f"Error initializing bot: {e}"] and [f"Error running bot: {e}"]. *)
Inductive PrintLine :=
| PrintText (s : string)
| PrintInitError (e : exc)
| PrintRunError (e : exc).

(** The calls to the outside world, in the order they are made. *)
Inductive Event :=
| GetOhlcv (sym interval : string) (count : Z)
| GetBalances
| GetBalance (currency : string)
| BuyMarketOrder (sym : string) (amount : R)
| SellMarketOrder (sym : string) (volume : R)
| NotionCreate (auth : option string) (page : NotionPage)
| TelegramPost (url chat_id : string) (text : Message)
| Printed (line : PrintLine)
| WriteFile (name contents : string).

Definition is_order (ev : Event) : bool :=
  match ev with BuyMarketOrder _ _ | SellMarketOrder _ _ => true | _ => false end.

(** What the outside world answers: the environment variables, pyupbit
    (market data and the account) and the Notion API. *)
Record World := {
  getenv : string -> option string;
  get_ohlcv : string -> string -> Z -> option Price;
  get_balances : Response (option (list Dict));
  get_balance : string -> Response (option R);
  buy_market_order : string -> R -> Response (option Dict);
  sell_market_order : string -> R -> Response (option Dict);
  pages_create : NotionPage -> Response unit
}.

(** ** The whole bot object *)

(** The attributes of [YingYangTradingBot] beside those of [Bot]. *)
Record Agent := {
  core : Bot;
  interval : string;
  count : Z;
  position : string
}.

Definition set_core (ag : Agent) (b : Bot) : Agent :=
  {| core := b; interval := interval ag; count := count ag; position := position ag |}.

Definition set_position (ag : Agent) (p : string) : Agent :=
  {| core := core ag; interval := interval ag; count := count ag; position := p |}.

Inductive presult (A : Type) :=
| POk (a : A)
| PErr (e : exc).
Arguments POk {A} a.
Arguments PErr {A} e.

(** A method of the whole object: it also appends to the list of calls
    made to the outside world. *)
Definition AM (A : Type) := Agent * list Event -> presult A * (Agent * list Event).

Definition aret {A : Type} (a : A) : AM A := fun s => (POk a, s).
Definition araise {A : Type} (e : exc) : AM A := fun s => (PErr e, s).
Definition abind {A B : Type} (m : AM A) (k : A -> AM B) : AM B :=
  fun s => match m s with
           | (POk a, s') => k a s'
           | (PErr e, s') => (PErr e, s')
           end.

Notation "x <-- m ;; k" := (abind m (fun x => k))
  (at level 61, m at next level, right associativity).

(** [try: m except Exception as e: h(e)] *)
Definition acatch {A : Type} (m : AM A) (h : exc -> AM A) : AM A :=
  fun s => match m s with
           | (PErr e, s') => h e s'
           | r => r
           end.

Definition get_agent : AM Agent := fun s => (POk (fst s), s).
Definition put_position (p : string) : AM unit :=
  fun s => (POk tt, (set_position (fst s) p, snd s)).
Definition emit (ev : Event) : AM unit :=
  fun s => (POk tt, (fst s, snd s ++ [ev])).

(** A method of [Bot], run on the object. *)
Definition lift {A : Type} (m : M A) : AM A :=
  fun s => match m (core (fst s)) with
           | (Ok a, b) => (POk a, (set_core (fst s) b, snd s))
           | (Err e, b) => (PErr (Exc e), (set_core (fst s) b, snd s))
           end.

(** A library call: recorded, then its answer returned or raised. *)
Definition call {A : Type} (ev : Event) (r : Response A) : AM A :=
  _ <-- emit ev ;;
  match r with
  | Returned a => aret a
  | Raised m => araise (External m)
  end.

(** The analysis steps of [run], from [download_data] to [get_last_signal],
    on the frame [pyupbit.get_ohlcv] returned. *)
Definition analysis (fetched : option Price) : M Summary :=
  _ <- download_data fetched ;;
  _ <- calculate_volatility ;;
  _ <- calculate_pan_bands ;;
  _ <- trading_signal ;;
  get_last_signal.

(** The last row of the volatility frame, as [df['YYL'].iloc[-1]] reads it:
    [None['YYL']] raises TypeError, an empty frame IndexError. *)
Definition last_vol_row : AM VolRow :=
  ag <-- get_agent ;;
  match ying_yang_vol (core ag) with
  | None => araise (Exc TypeError)
  | Some vf =>
      match last_opt vf with
      | None => araise (Exc IndexError)
      | Some (_, r) => aret r
      end
  end.

Section Methods.

Variable W : World.

(** [get_current_position]: the balance of the currency after the first
    dash of the symbol; an exception (IndexError included) gives
    "neutral". *)
Definition get_current_position (sym : string) : string * list Event :=
  match nth_error (py_split "-" sym) 1 with
  | None => ("neutral", [])
  | Some cur =>
      (match get_balance W cur with
       | Returned (Some b) => if Rgt_dec b 0 then "long" else "neutral"
       | Returned None => "neutral"
       | Raised _ => "neutral"
       end, [GetBalance cur])
  end%string.

(** The body of [__init__], once its arguments are bound. *)
Definition yingyang_init (sym iv : string) (cnt : Z) (use_ema : bool) (w s : Z)
    : presult Agent * list Event :=
  if negb (str_truthy (getenv W "ACCESS_KEY")) || negb (str_truthy (getenv W "SECRET_KEY")) then
    (PErr (Exc (ValueError "ACCESS_KEY and SECRET_KEY must be set in the .env file")), [])
  else
    match get_balances W with
    | Raised m => (PErr (External m), [GetBalances])
    | Returned bs =>
        if negb (list_truthy bs) then
          (PErr (Exc (ValueError "Failed to authenticate with Upbit API. Please check your ACCESS_KEY and SECRET_KEY")),
           [GetBalances])
        else
          let (pos, evs) := get_current_position sym in
          (POk {| core := init_bot sym use_ema w s; interval := iv; count := cnt; position := pos |},
           GetBalances :: evs)
    end.

(** [YingYangTradingBot(...)] with [npos] positional arguments and the
    keywords [kws]; [body] is [__init__] on the bound values. *)
Definition construct (npos : nat) (kws : list string) (body : presult Agent * list Event)
    : presult Agent * list Event :=
  match bind_args init_params npos kws with
  | Some b => (PErr (BindTypeError b), [])
  | None => body
  end.

Definition execute_trade : AM TradeResult :=
  ag <-- get_agent ;;
  match last_signal (core ag) with
  | None => araise (Exc (ValueError "Last signal must be generated before executing trade."))
  | Some sd =>
      let signal := last_signal_text sd in
      let sym := symbol (core ag) in
      acatch
        (if String.eqb signal "Buy" && String.eqb (position ag) "neutral" then
           krw_balance <-- call (GetBalance "KRW") (get_balance W "KRW") ;;
           match krw_balance with
           | None => araise (Exc (ValueError "Unable to get KRW balance"))
           | Some k =>
               let amount := k * (3 / 10) in
               order <-- call (BuyMarketOrder sym amount) (buy_market_order W sym amount) ;;
               if dict_truthy order && negb (match order with Some d => dict_has "error" d | None => false end) then
                 _ <-- put_position "long" ;;
                 aret (Bought sym amount)
               else
                 match order with
                 | None => araise (Exc AttributeError)
                 | Some d => araise (Exc (ValueError ("Buy order failed: " ++ dict_get "error" d "Unknown error")))
                 end
           end
         else if String.eqb signal "Sell" && String.eqb (position ag) "long" then
           match nth_error (py_split "-" sym) 1 with
           | None => araise (Exc IndexError)
           | Some cur =>
               btc_balance <-- call (GetBalance cur) (get_balance W cur) ;;
               match btc_balance with
               | None => araise (Exc (ValueError ("Unable to get " ++ sym ++ " balance")))
               | Some v =>
                   order <-- call (SellMarketOrder sym v) (sell_market_order W sym v) ;;
                   if dict_truthy order && negb (match order with Some d => dict_has "error" d | None => false end) then
                     _ <-- put_position "neutral" ;;
                     aret (Sold v sym)
                   else
                     match order with
                     | None => araise (Exc AttributeError)
                     | Some d => araise (Exc (ValueError ("Sell order failed: " ++ dict_get "error" d "Unknown error")))
                     end
               end
           end
         else aret (NoTrade (position ag) signal))
        (fun e => aret (TradeFailed e))
  end%string.

Definition notion_update : AM unit :=
  ag <-- get_agent ;;
  let auth := getenv W "NOTION_API" in
  let db := getenv W "DATABASE_ID" in
  match last_signal (core ag) with
  | None => araise (Exc (ValueError "Last signal must be generated before updating Notion."))
  | Some sd =>
      r <-- last_vol_row ;;
      let page := {| database_id := db; page_ticker := Ticker sd;
                     page_signal_time := timestamp sd; page_last_signal := last_signal_text sd;
                     page_entry_price := entry_price sd; page_YYL := YYL r;
                     page_YYL_slow := YYL_slow r; page_position := position ag;
                     page_interval := interval ag |} in
      call (NotionCreate auth page) (pages_create W page)
  end.

(** A [requests.RequestException] of the post is caught and logged, so
    the answer of the Telegram API plays no part. *)
Definition send_telegram_message (message : Message) : AM unit :=
  match getenv W "TELEGRAM_BOT_TOKEN", getenv W "TELEGRAM_CHAT_ID" with
  | Some (String _ _ as token), Some (String _ _ as chat) =>
      emit (TelegramPost ("https://api.telegram.org/bot" ++ token ++ "/sendMessage") chat message)
  | _, _ => aret tt
  end%string.

Definition run : AM unit :=
  acatch
    (ag <-- get_agent ;;
     let fetched := get_ohlcv W (symbol (core ag)) (interval ag) (count ag) in
     _ <-- emit (GetOhlcv (symbol (core ag)) (interval ag) (count ag)) ;;
     _ <-- lift (analysis fetched) ;;
     trade_result <-- execute_trade ;;
     _ <-- notion_update ;;
     ag' <-- get_agent ;;
     match last_signal (core ag') with
     | None => araise (Exc AttributeError)
     | Some sd =>
         r <-- last_vol_row ;;
         send_telegram_message
           (BotUpdate (symbol (core ag')) (interval ag') (last_signal_text sd) (entry_price sd)
              (timestamp sd) (YYL r) (YYL_slow r) (position ag') trade_result)
     end)
    (fun e => send_telegram_message (BotError e)).

(** [run_bot] of [ec2_autobot.py]; what it prints or logs on an exception
    ends the list. *)
Definition run_bot (interval_minutes : Z) : list Event :=
  let iv := ("minute" ++ z_str interval_minutes)%string in
  match construct 3 ["ema"; "window"; "span"; "stop_loss_percentage"; "take_profit_percentage"]%string
          (yingyang_init "KRW-BTC" iv 300 true 20 10) with
  | (PErr e, evs) => evs ++ [Printed (PrintRunError e)]
  | (POk bot, evs) =>
      match run (bot, evs) with
      | (POk _, (_, evs')) => evs'
      | (PErr e, (_, evs')) => evs' ++ [Printed (PrintRunError e)]
      end
  end.

End Methods.

(** The input loop of [main], on the successive results of
    [int(input(...))] ([None]: [int] raised ValueError); the end of the
    inputs is [input()] raising EOFError. *)
Fixpoint read_interval (inputs : list (option Z)) : presult Z * list Event :=
  match inputs with
  | [] => (PErr EOFError, [])
  | None :: rest =>
      let (r, evs) := read_interval rest in
      (r, Printed (PrintText "Invalid input. Please enter a number.") :: evs)
  | Some n :: rest =>
      if existsb (Z.eqb n) [15; 30; 60]%Z then (POk n, [])
      else
        let (r, evs) := read_interval rest in
        (r, Printed (PrintText "Invalid input. Please enter 15, 30, or 60.") :: evs)
  end.

(** [main] of [ec2_autobot.py] up to its scheduling loop: [start_time] is
    [datetime.now()], and [schedule] is what the [while] loop over
    [bot_running.txt] does with the bot. *)
Definition main (W : World) (inputs : list (option Z)) (start_time : Z)
    (schedule : Agent -> list Event) : presult unit * list Event :=
  let started := [Printed (PrintText "YingYang Trading Bot started")] in
  match read_interval inputs with
  | (PErr e, evs) => (PErr e, started ++ evs)
  | (POk n, evs) =>
      let evs1 := started ++ evs ++
                  [WriteFile "bot_running.txt" "Bot is running. Delete this file to stop the bot."] in
      match construct 3 ["stop_loss_percentage"; "take_profit_percentage"]%string
              (yingyang_init W "KRW-BTC" ("minute" ++ z_str n)%string 300 true 20 10) with
      | (PErr e, evs2) => (POk tt, evs1 ++ evs2 ++ [Printed (PrintInitError e)])
      | (POk bot, evs2) =>
          match send_telegram_message W (BotStarted start_time n) (bot, evs1 ++ evs2) with
          | (PErr e, (_, evs3)) => (POk tt, evs3 ++ [Printed (PrintInitError e)])
          | (POk _, (bot', evs3)) => (POk tt, evs3 ++ schedule bot')
          end
      end
  end.

(** ** [get_next_run_time] *)

(** A naive [datetime] is the number of microseconds since
    0001-01-01 00:00; [datetime.max] is 9999-12-31 23:59:59.999999, and
    going past it raises OverflowError ([None]). *)
Definition us_per_minute : Z := 60000000.
Definition us_per_hour : Z := 3600000000.
Definition datetime_max : Z := (3652059 * 86400000000 - 1)%Z.

(** [t.minute] *)
Definition minute_of (t : Z) : Z := ((t / us_per_minute) mod 60)%Z.

(** [t.replace(minute=m)] *)
Definition replace_minute (t m : Z) : Z := (t + (m - minute_of t) * us_per_minute)%Z.

(** [t + timedelta(hours=1)] *)
Definition add_hour (t : Z) : option Z :=
  if (t + us_per_hour <=? datetime_max)%Z then Some (t + us_per_hour)%Z else None.

(** [get_next_run_time], at the time [now] that [datetime.now()] returns. *)
Definition get_next_run_time (interval_minutes now : Z) : option Z :=
  let minutes := minute_of now in
  let next_run := (now - now mod us_per_minute)%Z in
  let next_hour := option_map (fun t => replace_minute t 0) (add_hour next_run) in
  if (interval_minutes =? 15)%Z then
    if (minutes <? 15)%Z then Some (replace_minute next_run 15)
    else if (minutes <? 30)%Z then Some (replace_minute next_run 30)
    else if (minutes <? 45)%Z then Some (replace_minute next_run 45)
    else next_hour
  else if (interval_minutes =? 30)%Z then
    if (minutes <? 30)%Z then Some (replace_minute next_run 30)
    else next_hour
  else next_hour.

(** What [main] prints for a rejected input. *)
Definition rejection (x : option Z) : Event :=
  Printed (PrintText (match x with
                      | None => "Invalid input. Please enter a number."
                      | Some _ => "Invalid input. Please enter 15, 30, or 60."
                      end)).

(** An input [main] accepts: [int(...)] succeeded with 15, 30 or 60. *)
Definition valid_interval (x : option Z) : Prop :=
  exists n, x = Some n /\ In n [15; 30; 60]%Z.

(** A method that only appends to the calls already made. *)
Definition appends {A : Type} (m : AM A) : Prop :=
  forall ag tr, m (ag, tr) =
    match m (ag, []) with (r, (ag', evs)) => (r, (ag', tr ++ evs)) end.

(** A method of [Bot] that leaves [symbol] as it is. *)
Definition keeps_symbol {A : Type} (m : M A) : Prop :=
  forall st, symbol (snd (m st)) = symbol st.

(** ** Sample inputs *)

(** A candle whose four prices are [c]. *)
Definition candle (t : Z) (c : R) : PriceRecord :=
  {| ts := t; open_ := c; high := c; low := c; close := c |}.

(** Three candles: a drop, then a small rebound. *)
Definition P1 : Price := [candle 0 3; candle 1 0; candle 2 (31 / 20)].

(** The same closes at other timestamps, as a later download returns them. *)
Definition P2 : Price := [candle 10 3; candle 11 0; candle 12 (31 / 20)].

(** A flat market. *)
Definition P_flat : Price := [candle 0 5; candle 1 5; candle 2 5].

(** Seven rising closes. *)
Definition P_rise : Price :=
  [candle 0 1; candle 1 2; candle 2 3; candle 3 4; candle 4 5; candle 5 6; candle 6 7].

(** The bot [ec2_autobot] builds, with window 2 and span 2. *)
Definition demo_bot : Bot := init_bot "KRW-BTC" true 2 2.

Definition demo_vol : VolFrame := volatility_frame true 2 2 P1.
Definition demo_bands : BandFrame := band_frame 2 P1 demo_vol.

(** The state after [download_data], [calculate_volatility] and
    [calculate_pan_bands] on [P1]. *)
Definition demo_state : Bot :=
  set_bands (set_vol (set_price demo_bot (Some P1)) demo_vol) demo_bands.

(** ... and after [trading_signal]. *)
Definition demo_state_signals : Bot :=
  set_signals demo_state (signal_frame (join_input demo_vol demo_bands P1)).

(** A second download between the volatility and the band computation. *)
Definition redownload_before_bands : M BandFrame :=
  _ <- download_data (Some P1) ;;
  _ <- calculate_volatility ;;
  _ <- download_data (Some P2) ;;
  calculate_pan_bands.

(** A second download between the band computation and the signals. *)
Definition redownload_before_signals : M SigFrame :=
  _ <- download_data (Some P1) ;;
  _ <- calculate_volatility ;;
  _ <- calculate_pan_bands ;;
  _ <- download_data (Some P2) ;;
  trading_signal.

(** [sqrt (1/2)], a common factor of the volatilities of [P1]. *)
Definition root_half : R := sqrt (1 / 2).

(** An exchange account holding 1 of every currency, whose orders answer
    [None]; no environment variable is set. *)
Definition demo_world : World :=
  {| getenv := fun _ => None;
     get_ohlcv := fun _ _ _ => Some P1;
     get_balances := Returned (Some []);
     get_balance := fun _ => Returned (Some 1);
     buy_market_order := fun _ _ => Returned None;
     sell_market_order := fun _ _ => Returned None;
     pages_create := fun _ => Returned tt |}.

(** The bot object right after [__init__], holding no coin. *)
Definition demo_agent : Agent :=
  {| core := demo_bot; interval := "minute15"; count := 300%Z; position := "neutral" |}.

(** Splits an equation between two lists of cells into equations
    between their values. *)
Ltac cells :=
  repeat (apply (f_equal2 (@cons _)); [first [reflexivity | apply f_equal] |]); try reflexivity.

(** Case analysis on every match whose scrutinee holds no match. *)
Ltac split_matches :=
  repeat (cbn beta iota zeta;
    match goal with
    | |- context [match ?x with _ => _ end] =>
        lazymatch x with
        | context [match _ with _ => _ end] => fail
        | _ => let E := fresh "E" in destruct x eqn:E
        end
    end).

(** Turns [(a =? b) && (c =? d) = true] hypotheses into equations. *)
Ltac strings_true :=
  repeat match goal with
  | H : (_ && _)%bool = true |- _ => apply andb_prop in H; destruct H
  | H : String.eqb _ _ = true |- _ => apply String.eqb_eq in H
  end.

(** Runs a method of [Bot] through all its branches. *)
Ltac keeps_tac :=
  intros st; cbv [download_data calculate_volatility calculate_pan_bands trading_signal
    get_last_signal bind get_bot put_bot ret raise];
  repeat match goal with
         | |- context [match ?x with _ => _ end] =>
             lazymatch x with context [match _ with _ => _ end] => fail | _ => destruct x end
         | |- context [if ?x then _ else _] =>
             lazymatch x with context [match _ with _ => _ end] => fail | _ => destruct x end
         end; reflexivity.

(** The last steps of [run]: the Telegram message (its calls given by
    [shape]), then the calls so far split by [after]. *)
Ltac run_leaf shape after :=
  match goal with
  | |- context [send_telegram_message ?W ?m (?a, ?t)] =>
      let c := fresh "c" in let Hc := fresh "Hc" in let Hc' := fresh "Hc'" in
      let Hnc := fresh "Hnc" in
      destruct (shape W m a t) as (c & Hc & Hc'); rewrite Hc; cbn beta iota zeta;
      assert (Hnc : forall ev, In ev c -> is_order ev = false)
        by (intros ev Hin; destruct (Hc' ev Hin) as (u & ch & ->); reflexivity)
  end;
  rewrite <- ?app_assoc;
  match goal with
  | Hlen : (length (filter is_order ?cl) <= 1)%nat, HG : is_order ?G = false,
    Hcl' : forall ev, In ev ?cl -> is_order ev = true -> _
    |- context [[?G] ++ (?cl ++ ?rest)] =>
      let Hrest := fresh "Hrest" in
      assert (Hrest : forall ev, In ev rest -> is_order ev = false)
        by (intros ev Hin; repeat (apply in_app_iff in Hin; destruct Hin as [Hin|Hin]);
            solve [auto]);
      let O := fresh "O" in
      pose proof (after G cl rest _ HG Hrest Hlen Hcl') as O;
      refine (conj eq_refl (conj (proj1 O) (conj (proj2 O) _)));
      intros ? ? He; discriminate He
  end.

(** * Properties *)

(** ** Column lemmas *)

Lemma length_zip_with {A B C : Type} (f : A -> B -> C) xs ys :
  length (zip_with f xs ys) = Nat.min (length xs) (length ys).
Proof.
  revert ys; induction xs as [|x xs IH]; intros [|y ys]; simpl; auto.
Qed.

Lemma nth_zip_with {A B C : Type} (f : A -> B -> C) xs ys t da db dc :
  (t < length xs)%nat -> (t < length ys)%nat ->
  nth t (zip_with f xs ys) dc = f (nth t xs da) (nth t ys db).
Proof.
  revert ys t; induction xs as [|x xs IH]; intros [|y ys] t Hx Hy; simpl in *; try lia.
  destruct t; auto. apply IH; lia.
Qed.

Lemma length_rolling_mean w xs : length (rolling_mean w xs) = length xs.
Proof. unfold rolling_mean. now rewrite length_map, length_seq. Qed.

Lemma nth_rolling_mean w xs t d :
  (t < length xs)%nat -> nth t (rolling_mean w xs) d = window_mean w xs t.
Proof.
  intros H. unfold rolling_mean.
  rewrite nth_indep with (d' := window_mean w xs 0) by (rewrite length_map, length_seq; lia).
  rewrite map_nth, seq_nth by lia. reflexivity.
Qed.

Lemma length_ewm_from a prev xs : length (ewm_from a prev xs) = length xs.
Proof. revert prev; induction xs; simpl; auto. Qed.

Lemma length_ewm_mean n xs : length (ewm_mean n xs) = length xs.
Proof. destruct xs; simpl; auto using length_ewm_from. Qed.

Section ColumnLengths.
Variables (e : bool) (w s : nat) (c : list R).

Lemma length_ma_col : length (ma_col e w c) = length c.
Proof.
  unfold ma_col; destruct e.
  - now rewrite length_map, length_ewm_mean.
  - now rewrite length_rolling_mean, length_map.
Qed.

Lemma length_diff_col : length (diff_col e w c) = length c.
Proof. unfold diff_col. rewrite length_zip_with, length_map, length_ma_col; lia. Qed.

Lemma length_yang_col : length (yang_col e w c) = length c.
Proof.
  unfold yang_col. now rewrite length_map, length_rolling_mean, length_map, length_diff_col.
Qed.

Lemma length_ying_col : length (ying_col e w c) = length c.
Proof.
  unfold ying_col. now rewrite length_map, length_rolling_mean, length_map, length_diff_col.
Qed.

Lemma length_total_col : length (total_col e w c) = length c.
Proof.
  unfold total_col. rewrite length_map, length_zip_with, !length_map,
    length_yang_col, length_ying_col; lia.
Qed.

Lemma length_YYL_col : length (YYL_col e w c) = length c.
Proof.
  unfold YYL_col. rewrite length_map, !length_zip_with, length_yang_col,
    length_ying_col, length_total_col; lia.
Qed.

Lemma length_YYL_slow_col : length (YYL_slow_col e w s c) = length c.
Proof. unfold YYL_slow_col. now rewrite length_rolling_mean, length_YYL_col. Qed.
End ColumnLengths.

Lemma nth_map_cell (f : cell -> cell) l t :
  f None = None -> nth t (map f l) None = f (nth t l None).
Proof. intros Hf. rewrite <- Hf at 1. apply map_nth. Qed.

(** The row at position [t] of the volatility frame. *)
Lemma volatility_frame_row e w s p k r :
  In (k, r) (volatility_frame e w s p) ->
  exists t, (t < length p)%nat /\
    ma r = nth t (ma_col e w (closes p)) None /\
    yang_vol r = nth t (yang_col e w (closes p)) None /\
    ying_vol r = nth t (ying_col e w (closes p)) None /\
    total_vol r = nth t (total_col e w (closes p)) None /\
    YYL r = nth t (YYL_col e w (closes p)) None /\
    YYL_slow r = nth t (YYL_slow_col e w s (closes p)) None.
Proof.
  unfold volatility_frame. intros H. apply in_map_iff in H as [t [Ht Hin]].
  apply in_seq in Hin. injection Ht as <- <-. exists t; simpl; repeat split; auto; lia.
Qed.

Lemma sqrt_cell_some x v : sqrt_cell x = Some v -> exists y, x = Some y /\ 0 <= y /\ v = sqrt y.
Proof.
  destruct x as [y|]; simpl; [|discriminate].
  destruct (Rlt_dec y 0); [discriminate|]. intros [= <-]. exists y; repeat split; auto; lra.
Qed.

Lemma yang_col_nonneg e w c t a : nth t (yang_col e w c) None = Some a -> 0 <= a.
Proof.
  unfold yang_col. rewrite nth_map_cell by reflexivity. intros H.
  apply sqrt_cell_some in H as [y [_ [_ ->]]]. apply sqrt_pos.
Qed.

Lemma ying_col_nonneg e w c t b : nth t (ying_col e w c) None = Some b -> 0 <= b.
Proof.
  unfold ying_col. rewrite nth_map_cell by reflexivity. intros H.
  apply sqrt_cell_some in H as [y [_ [_ ->]]]. apply sqrt_pos.
Qed.

(** [total_vol], where defined, is [sqrt(yang_vol^2 + ying_vol^2)] of the same row. *)
Lemma total_col_def e w c t v :
  (t < length c)%nat -> nth t (total_col e w c) None = Some v ->
  exists a b, nth t (yang_col e w c) None = Some a /\ nth t (ying_col e w c) None = Some b /\
              v = sqrt (a ^ 2 + b ^ 2).
Proof.
  intros Ht. unfold total_col. rewrite nth_map_cell by reflexivity.
  rewrite (nth_zip_with _ _ _ _ (None : cell) (None : cell))
    by (rewrite length_map; try rewrite length_yang_col; try rewrite length_ying_col; lia).
  rewrite !nth_map_cell by reflexivity.
  destruct (nth t (yang_col e w c) None) as [a|], (nth t (ying_col e w c) None) as [b|];
    cbn [cell_lift2 cell_map]; try (simpl; discriminate).
  intros H. apply sqrt_cell_some in H as [y [[= <-] [_ ->]]]. eauto.
Qed.

Lemma sqrt_sum_sq_ge a b : 0 <= a -> 0 <= b -> Rmax a b <= sqrt (a ^ 2 + b ^ 2).
Proof.
  intros Ha Hb. apply Rmax_lub.
  - rewrite <- (sqrt_pow2 a Ha) at 1. apply sqrt_le_1_alt. nra.
  - rewrite <- (sqrt_pow2 b Hb) at 1. apply sqrt_le_1_alt. nra.
Qed.

(** The oscillator, where defined, is [100 (yang - ying) / total] with a
    nonzero [total_vol] of the same row. *)
Lemma YYL_col_def e w c t y :
  (t < length c)%nat -> nth t (YYL_col e w c) None = Some y ->
  exists a b v, nth t (yang_col e w c) None = Some a /\ nth t (ying_col e w c) None = Some b /\
    nth t (total_col e w c) None = Some v /\ v <> 0 /\ y = (a - b) / v * 100.
Proof.
  intros Ht. unfold YYL_col. rewrite nth_map_cell by reflexivity.
  rewrite (nth_zip_with _ _ _ _ (None : cell) (None : cell))
    by (rewrite ?length_zip_with, ?length_yang_col, ?length_ying_col, ?length_total_col; lia).
  rewrite (nth_zip_with _ _ _ _ (None : cell) (None : cell))
    by (rewrite ?length_yang_col, ?length_ying_col; lia).
  destruct (nth t (yang_col e w c) None) as [a|], (nth t (ying_col e w c) None) as [b|],
    (nth t (total_col e w c) None) as [v|]; simpl; try discriminate.
  destruct (Req_EM_T v 0); [discriminate|]. intros [= <-]. exists a, b, v; auto.
Qed.

Lemma abs_diff_le_total a b : 0 <= a -> 0 <= b ->
  - sqrt (a ^ 2 + b ^ 2) <= a - b <= sqrt (a ^ 2 + b ^ 2).
Proof.
  intros Ha Hb. pose proof (sqrt_sum_sq_ge a b Ha Hb) as H.
  pose proof (Rmax_l a b). pose proof (Rmax_r a b). lra.
Qed.

Lemma ratio_bound x v : 0 < v -> - v <= x <= v -> -100 <= x / v * 100 <= 100.
Proof.
  intros Hv Hx. set (q := x / v).
  assert (Hq : x = q * v) by (unfold q; field; lra).
  rewrite Hq in Hx. split; nra.
Qed.

(** ** Claims about the volatility frame *)

(** C3: at every row of the frame of [calculate_volatility] where yang_vol,
    ying_vol and total_vol are defined, both volatilities are nonnegative,
    total_vol = sqrt(yang_vol^2 + ying_vol^2), and total_vol is at least
    max(yang_vol, ying_vol). *)
Theorem total_vol_ge_max e w s p k r a b v :
  In (k, r) (volatility_frame e w s p) ->
  yang_vol r = Some a -> ying_vol r = Some b -> total_vol r = Some v ->
  0 <= a /\ 0 <= b /\ v = sqrt (a ^ 2 + b ^ 2) /\ Rmax a b <= v.
Proof.
  intros Hin Ha Hb Hv.
  destruct (volatility_frame_row _ _ _ _ _ _ Hin) as [t [Ht [_ [Ea [Eb [Ev _]]]]]].
  rewrite Ea in Ha; rewrite Eb in Hb; rewrite Ev in Hv.
  unfold closes in *.
  destruct (total_col_def _ _ _ _ _ ltac:(rewrite length_map; exact Ht) Hv)
    as [a' [b' [Ha' [Hb' ->]]]].
  rewrite Ha in Ha'; rewrite Hb in Hb'. injection Ha' as <-. injection Hb' as <-.
  pose proof (yang_col_nonneg _ _ _ _ _ Ha). pose proof (ying_col_nonneg _ _ _ _ _ Hb).
  repeat split; auto. now apply sqrt_sum_sq_ge.
Qed.

(** C4: wherever the oscillator YYL is defined, it is
    100 * (yang_vol - ying_vol) / total_vol with total_vol > 0 on that row,
    and it lies in [-100, 100]. *)
Theorem YYL_in_range e w s p k r y :
  In (k, r) (volatility_frame e w s p) -> YYL r = Some y ->
  (exists a b v, yang_vol r = Some a /\ ying_vol r = Some b /\ total_vol r = Some v /\
                 0 < v /\ y = 100 * (a - b) / v) /\
  -100 <= y <= 100.
Proof.
  intros Hin Hy.
  destruct (volatility_frame_row _ _ _ _ _ _ Hin) as [t [Ht [_ [Ea [Eb [Ev [Ey _]]]]]]].
  rewrite Ey in Hy. unfold closes in *.
  assert (Ht' : (t < length (map close p))%nat) by (rewrite length_map; exact Ht).
  destruct (YYL_col_def _ _ _ _ _ Ht' Hy) as [a [b [v [Ha [Hb [Hv [Hnz ->]]]]]]].
  destruct (total_col_def _ _ _ _ _ Ht' Hv) as [a' [b' [Ha' [Hb' Hvd]]]].
  rewrite Ha in Ha'; rewrite Hb in Hb'. injection Ha' as <-. injection Hb' as <-.
  pose proof (yang_col_nonneg _ _ _ _ _ Ha). pose proof (ying_col_nonneg _ _ _ _ _ Hb).
  assert (Hpos : 0 < v) by (pose proof (sqrt_pos (a ^ 2 + b ^ 2)); subst v; lra).
  split.
  - exists a, b, v. rewrite Ea, Eb, Ev. repeat split; auto. field. lra.
  - apply ratio_bound; auto. subst v. now apply abs_diff_le_total.
Qed.

(** ** Index alignment lemmas *)

Lemma in_union_idx a b k : In k (union_idx a b) <-> In k a \/ In k b.
Proof.
  revert b; induction a as [|x a' IHa]; intros b; simpl.
  - tauto.
  - induction b as [|y b' IHb]; simpl.
    + tauto.
    + destruct (Z.ltb_spec x y).
      * simpl. rewrite IHa. simpl. tauto.
      * destruct (Z.ltb_spec y x).
        -- simpl. simpl in IHb. rewrite IHb. tauto.
        -- assert (x = y) by lia. subst y. simpl. rewrite IHa. tauto.
Qed.

Lemma lookup_map_in {A : Type} (g : Z -> A) l k :
  In k l -> lookup k (map (fun j => (j, g j)) l) = Some (g k).
Proof.
  induction l as [|j l IH]; simpl; [tauto|]. intros H.
  destruct (Z.eqb_spec j k); [now subst|]. apply IH. destruct H; [congruence|auto].
Qed.

Lemma lookup_map_notin {A : Type} (g : Z -> A) l k :
  ~ In k l -> lookup k (map (fun j => (j, g j)) l) = None.
Proof.
  induction l as [|j l IH]; simpl; auto. intros H.
  destruct (Z.eqb_spec j k); [tauto|]. apply IH. tauto.
Qed.

Lemma lookup_in {A : Type} k (l : list (Z * A)) v : lookup k l = Some v -> In (k, v) l.
Proof.
  induction l as [|[j x] l IH]; simpl; [discriminate|].
  destruct (Z.eqb_spec j k); [intros [= <-]; subst; auto | auto].
Qed.

Lemma lookup_none_keys {A : Type} k (l : list (Z * A)) : ~ In k (keys l) -> lookup k l = None.
Proof.
  induction l as [|[j x] l IH]; simpl; auto. intros H.
  destruct (Z.eqb_spec j k); [tauto|]. apply IH. tauto.
Qed.

Lemma get_align f a b k :
  In k (keys a) \/ In k (keys b) -> get k (align f a b) = cell_lift2 f (get k a) (get k b).
Proof.
  intros H. unfold align, get at 1.
  rewrite lookup_map_in with (g := fun k => cell_lift2 f (get k a) (get k b)); auto.
  now apply in_union_idx.
Qed.

Lemma keys_align f a b : keys (align f a b) = union_idx (keys a) (keys b).
Proof. unfold align, keys. rewrite map_map. simpl. apply map_id. Qed.

Lemma keys_series_map f s : keys (series_map f s) = keys s.
Proof. unfold keys, series_map. rewrite map_map. apply map_ext. now intros [k c]. Qed.

Lemma get_series_map f s k : get k (series_map f s) = cell_map f (get k s).
Proof.
  unfold get. induction s as [|[j c] s IH]; simpl; auto.
  destruct (Z.eqb j k); auto.
Qed.

Lemma keys_column {A : Type} (f : A -> cell) fr : keys (column f fr) = keys fr.
Proof. unfold keys, column. rewrite map_map. apply map_ext. now intros [k c]. Qed.

Lemma get_column {A : Type} (f : A -> cell) fr k :
  get k (column f fr) = match lookup k fr with Some r => f r | None => None end.
Proof.
  unfold get. induction fr as [|[j r] fr IH]; simpl; auto.
  destruct (Z.eqb j k); auto.
Qed.

Lemma keys_combine {A : Type} (l : list Z) (l' : list A) :
  length l = length l' -> keys (combine l l') = l.
Proof.
  revert l'; induction l as [|x l IH]; intros [|y l'] H; simpl in *; try discriminate; auto.
  unfold keys in *; simpl. f_equal. apply IH. lia.
Qed.

Lemma keys_pan_baseline s p : keys (pan_baseline s p) = index p.
Proof.
  unfold pan_baseline. apply keys_combine.
  unfold index, closes. now rewrite !length_map, length_ewm_mean, length_map.
Qed.

Lemma in_band_keys s p vf k :
  In k (keys (band_frame s p vf)) <-> In k (index p) \/ In k (keys vf).
Proof.
  unfold band_frame, keys at 1. rewrite map_map. simpl. rewrite map_id.
  rewrite !in_union_idx, !keys_series_map, !keys_align, !in_union_idx,
    !keys_series_map, !keys_column, keys_pan_baseline. tauto.
Qed.

Lemma band_frame_row s p vf k row :
  In (k, row) (band_frame s p vf) ->
  (In k (index p) \/ In k (keys vf)) /\
  upper_band row = cell_lift2 Rplus (get k (pan_baseline s p))
                     (cell_map (fun v => 2 * v) (get k (column yang_vol vf))) /\
  lower_band row = cell_lift2 Rminus (get k (pan_baseline s p))
                     (cell_map (fun v => 2 * v) (get k (column ying_vol vf))).
Proof.
  intros H. assert (Hk : In k (keys (band_frame s p vf))).
  { unfold keys. change k with (fst (k, row)). now apply in_map. }
  apply in_band_keys in Hk.
  unfold band_frame in H. apply in_map_iff in H as [j [Hj _]]. injection Hj as -> <-.
  cbn [upper_band lower_band].
  rewrite !get_align, !get_series_map by (rewrite keys_pan_baseline, keys_series_map, keys_column; tauto).
  tauto.
Qed.

Lemma get_none_keys k (s : Series) : ~ In k (keys s) -> get k s = None.
Proof. intros H. unfold get. now rewrite lookup_none_keys. Qed.

Lemma vol_column_nonneg e w s p k a :
  (get k (column yang_vol (volatility_frame e w s p)) = Some a \/
   get k (column ying_vol (volatility_frame e w s p)) = Some a) -> 0 <= a.
Proof.
  rewrite !get_column. destruct (lookup k (volatility_frame e w s p)) as [r|] eqn:E;
    [|intros [H|H]; discriminate].
  apply lookup_in in E. destruct (volatility_frame_row _ _ _ _ _ _ E)
    as [t [_ [_ [Ea [Eb _]]]]].
  rewrite Ea, Eb. intros [H|H]; eauto using yang_col_nonneg, ying_col_nonneg.
Qed.

(** ** Claims about the bands and the method contracts *)

(** C5: at every row of the band frame where yang_vol and ying_vol (taken
    from a frame computed by [calculate_volatility], hence nonnegative) and
    the band baseline baseline2 (the span-period EMA of close) are defined,
    upper_band = baseline2 + 2 yang_vol and lower_band = baseline2 - 2 ying_vol
    are defined and upper_band >= baseline2 >= lower_band. *)
Theorem pan_bands_ordered e w s0 p0 s p k row a b m :
  In (k, row) (band_frame s p (volatility_frame e w s0 p0)) ->
  get k (column yang_vol (volatility_frame e w s0 p0)) = Some a ->
  get k (column ying_vol (volatility_frame e w s0 p0)) = Some b ->
  get k (pan_baseline s p) = Some m ->
  exists u l, upper_band row = Some u /\ lower_band row = Some l /\
              u = m + 2 * a /\ l = m - 2 * b /\ l <= m <= u /\ l <= u.
Proof.
  intros Hin Ha Hb Hm.
  pose proof (vol_column_nonneg e w s0 p0 k a (or_introl Ha)).
  pose proof (vol_column_nonneg e w s0 p0 k b (or_intror Hb)).
  destruct (band_frame_row _ _ _ _ _ Hin) as [_ [Eu El]].
  rewrite Ha, Hm in Eu. rewrite Hb, Hm in El. simpl in Eu, El.
  exists (m + 2 * a), (m - 2 * b). repeat split; auto; lra.
Qed.

(** On a non-empty price series and a valid configuration,
    [calculate_volatility] stores and returns the frame. *)
Lemma calculate_volatility_ok st p :
  (1 <= window st)%Z -> (0 <= span st)%Z -> p <> [] -> price st = Some p ->
  calculate_volatility st =
  (Ok (volatility_frame (ema st) (Z.to_nat (window st)) (Z.to_nat (span st)) p),
   set_vol st (volatility_frame (ema st) (Z.to_nat (window st)) (Z.to_nat (span st)) p)).
Proof.
  intros Hw Hs Hp E. unfold calculate_volatility, bind, get_bot, put_bot, ret. rewrite E.
  destruct p as [|r p]; [congruence|]. cbn [is_empty].
  replace (window st <? 1)%Z with false by (symmetry; apply Z.ltb_ge; lia).
  replace (window st <? 0)%Z with false by (symmetry; apply Z.ltb_ge; lia).
  replace (span st <? 0)%Z with false by (symmetry; apply Z.ltb_ge; lia).
  now rewrite andb_false_r.
Qed.

(** C7: with a valid configuration (window >= 1, span >= 1),
    [calculate_volatility] raises exactly when the price series is absent or
    empty; on any non-empty series, whatever its length, it returns the
    frame (one row per price row, uncomputable positions missing). *)
Theorem calculate_volatility_raises_iff st :
  (1 <= window st)%Z -> (1 <= span st)%Z ->
  ((exists e st', calculate_volatility st = (Err e, st')) <->
   (price st = None \/ price st = Some [])) /\
  (forall p, price st = Some p -> p <> [] ->
     let vf := volatility_frame (ema st) (Z.to_nat (window st)) (Z.to_nat (span st)) p in
     calculate_volatility st = (Ok vf, set_vol st vf) /\ length vf = length p).
Proof.
  intros Hw Hs.
  assert (Hc := fun p => calculate_volatility_ok st p Hw ltac:(lia)).
  split.
  - split.
    + intros [e [st' H]]. destruct (price st) as [[|r p]|] eqn:E; auto.
      rewrite (Hc (r :: p)) in H by (auto || discriminate). discriminate.
    + unfold calculate_volatility, bind, get_bot, raise. intros [E|E]; rewrite E; simpl; eauto.
  - intros p E Hp vf. split; [now apply Hc|].
    unfold vf, volatility_frame. now rewrite length_map, length_seq.
Qed.

(** C8 (as amended): with span >= 1, [calculate_pan_bands] raises exactly
    when the VolatilityFrame or the price series is absent.  A VolatilityFrame
    whose index differs from the price index makes it raise nothing: it
    returns a BandFrame on the union of both indexes, whose bands are missing
    at every timestamp absent from either index. *)
Theorem calculate_pan_bands_outcome st :
  (1 <= span st)%Z ->
  ((exists e st', calculate_pan_bands st = (Err e, st')) <->
   (ying_yang_vol st = None \/ price st = None)) /\
  (forall vf p, ying_yang_vol st = Some vf -> price st = Some p ->
     exists bf, calculate_pan_bands st = (Ok bf, set_bands st bf) /\
       (forall k, In k (keys bf) <-> In k (index p) \/ In k (keys vf)) /\
       (forall k row, In (k, row) bf -> ~ In k (index p) \/ ~ In k (keys vf) ->
                      upper_band row = None /\ lower_band row = None)).
Proof.
  intros Hs.
  assert (Hc : forall vf p, ying_yang_vol st = Some vf -> price st = Some p ->
    calculate_pan_bands st =
    (Ok (band_frame (Z.to_nat (span st)) p vf), set_bands st (band_frame (Z.to_nat (span st)) p vf))).
  { intros vf p Ev Ep. unfold calculate_pan_bands, bind, get_bot, put_bot, ret.
    rewrite Ev, Ep. replace (span st <? 1)%Z with false by (symmetry; apply Z.ltb_ge; lia).
    reflexivity. }
  split.
  - split.
    + intros [e [st' H]].
      destruct (ying_yang_vol st) as [vf|] eqn:Ev; auto.
      destruct (price st) as [p|] eqn:Ep; auto.
      rewrite (Hc vf p) in H by auto. discriminate.
    + unfold calculate_pan_bands, bind, get_bot, raise. intros [E|E]; rewrite E; simpl; eauto.
      destruct (ying_yang_vol st); eauto.
  - intros vf p Ev Ep. exists (band_frame (Z.to_nat (span st)) p vf).
    split; [now apply Hc|]. split; [apply in_band_keys|].
    intros k row Hin Hk. destruct (band_frame_row _ _ _ _ _ Hin) as [_ [Eu El]].
    rewrite Eu, El. destruct Hk as [Hk|Hk].
    + rewrite (get_none_keys k) by (now rewrite keys_pan_baseline). auto.
    + rewrite !(get_none_keys k (column _ vf)) by (now rewrite keys_column).
      simpl. now destruct (get k (pan_baseline _ p)).
Qed.

(** ** The signal loop *)

Lemma signal_step_update df status prev sigs i :
  signal_step df status prev sigs i =
  match signal_update df status prev i with
  | Some f => update_nth i f sigs
  | None => sigs
  end.
Proof.
  unfold signal_step, signal_update.
  destruct (_ && _); [reflexivity|]. destruct (_ && _); reflexivity.
Qed.

Lemma nth_error_update_nth {A : Type} i (f : A -> A) l j :
  nth_error (update_nth i f l) j =
  if Nat.eqb i j then option_map f (nth_error l j) else nth_error l j.
Proof.
  revert i j; induction l as [|x l IH]; intros i j.
  - destruct i, j; simpl; try destruct (Nat.eqb _ _); reflexivity.
  - destruct i, j; simpl; auto.
Qed.

Lemma fold_updates {A : Type} (u : nat -> option (A -> A)) is l j :
  NoDup is ->
  nth_error (fold_left (fun l i => match u i with Some f => update_nth i f l | None => l end) is l) j =
  if in_dec Nat.eq_dec j is then option_map (apply_opt (u j)) (nth_error l j) else nth_error l j.
Proof.
  revert l; induction is as [|i is IH]; intros l Hnd.
  - simpl. destruct (nth_error l j); reflexivity.
  - cbn [fold_left]. inversion Hnd as [|? ? Hni Hnd']; subst. rewrite IH by auto.
    assert (Hstep : nth_error (match u i with Some f => update_nth i f l | None => l end) j =
                    if Nat.eqb i j then option_map (apply_opt (u i)) (nth_error l j)
                    else nth_error l j).
    { destruct (u i) as [f|]; simpl.
      - apply nth_error_update_nth.
      - destruct (Nat.eqb i j), (nth_error l j); reflexivity. }
    destruct (in_dec Nat.eq_dec j is) as [Hj|Hj].
    + rewrite Hstep. destruct (Nat.eqb_spec i j); [subst; contradiction|].
      destruct (in_dec Nat.eq_dec j (i :: is)) as [_|Hn]; [reflexivity|]. exfalso; simpl in Hn; tauto.
    + rewrite Hstep. destruct (Nat.eqb_spec i j).
      * subst. destruct (in_dec Nat.eq_dec j (j :: is)) as [_|Hn]; [reflexivity|].
        exfalso; simpl in Hn; tauto.
      * destruct (in_dec Nat.eq_dec j (i :: is)) as [Hin|]; [|reflexivity].
        exfalso; simpl in Hin; destruct Hin; auto.
Qed.

Lemma fold_left_ext_fun {A B : Type} (f g : A -> B -> A) l a :
  (forall x y, f x y = g x y) -> fold_left f l a = fold_left g l a.
Proof. intros H. revert a; induction l; simpl; auto. intros a0. rewrite H. auto. Qed.

Lemma signal_frame_row df t :
  nth_error (signal_frame df) t =
  option_map (fun kr => apply_opt (if (1 <=? t)%nat
                                   then signal_update df (status_col df) (shift1 (status_col df)) t
                                   else None) (fst kr, zero_sig_row))
    (nth_error df t).
Proof.
  unfold signal_frame.
  rewrite (fold_left_ext_fun _ (fun l i => match signal_update df (status_col df) (shift1 (status_col df)) i with
                                    | Some f => update_nth i f l | None => l end))
    by (intros; apply signal_step_update).
  rewrite fold_updates by apply seq_NoDup.
  unfold initial_signals. rewrite nth_error_map.
  destruct (nth_error df t) as [[k r]|] eqn:E; [|destruct (in_dec _ _ _); reflexivity].
  assert (Ht : (t < length df)%nat) by (apply nth_error_Some; congruence).
  simpl. destruct (in_dec Nat.eq_dec t (seq 1 (length df - 1))) as [Hin|Hin];
    rewrite in_seq in Hin; destruct t as [|t']; try lia; reflexivity.
Qed.

Lemma nth_status_col df t : nth t (status_col df) 0%Z = status_at df t.
Proof.
  unfold status_col, status_at, jrow_at.
  change 0%Z with ((fun '(_, r) => status_of (YYL (jv r)) (YYL_slow (jv r))) (0%Z, nan_jrow)) at 1.
  rewrite map_nth. now destruct (nth t df (0%Z, nan_jrow)).
Qed.

Lemma length_status_col df : length (status_col df) = length df.
Proof. apply length_map. Qed.

Lemma nth_removelast {A : Type} (l : list A) i d :
  (S i < length l)%nat -> nth i (removelast l) d = nth i l d.
Proof.
  revert i; induction l as [|x l IH]; intros i H; simpl in *; [lia|].
  destruct l as [|y l]; simpl in *; [lia|].
  destruct i; auto. apply IH. simpl; lia.
Qed.

Lemma length_removelast_pred {A : Type} (l : list A) : length (removelast l) = pred (length l).
Proof. rewrite removelast_firstn_len, length_firstn. lia. Qed.

Lemma nth_shift1 s t :
  (1 <= t)%nat -> (t < length s)%nat -> nth t (shift1 s) None = Some (nth (t - 1) s 0%Z).
Proof.
  intros H1 H2. destruct s as [|x s]; simpl in *; [lia|].
  destruct t as [|t]; [lia|]. simpl.
  change (match s with [] => [] | _ :: _ => x :: removelast s end) with (removelast (x :: s)).
  rewrite nth_indep with (d' := Some 0%Z)
    by (rewrite length_map, length_removelast_pred; simpl in *; lia).
  rewrite map_nth. f_equal. rewrite nth_removelast by (simpl; lia). now rewrite Nat.sub_0_r.
Qed.

Lemma diff_is_true v a b : diff_is (Some v) a b = true <-> v = a \/ v = b.
Proof. simpl. rewrite orb_true_iff, !Z.eqb_eq. tauto. Qed.

Lemma cell_lt_true c b : cell_lt c b = true <-> exists y, c = Some y /\ y < b.
Proof.
  destruct c as [y|]; simpl.
  - destruct (Rlt_dec y b); split; try discriminate; eauto.
    intros [y' [[= <-] H]]; contradiction.
  - split; [discriminate|]. intros [y [H _]]; discriminate.
Qed.

Lemma cell_gt_true c b : cell_gt c b = true <-> exists y, c = Some y /\ y > b.
Proof.
  destruct c as [y|]; simpl.
  - destruct (Rgt_dec y b); split; try discriminate; eauto.
    intros [y' [[= <-] H]]; contradiction.
  - split; [discriminate|]. intros [y [H _]]; discriminate.
Qed.

Lemma status_of_spec y s : status_spec y s (status_of y s).
Proof.
  unfold status_spec. destruct y as [a|], s as [b|]; simpl; auto.
  left. exists a, b. repeat split; auto.
  destruct (Rgt_dec a b); [auto|]. destruct (Rlt_dec a b); [auto|].
  right; right. split; [lra|auto].
Qed.

Lemma buy_not_sell df t : buy_condition df t -> ~ sell_condition df t.
Proof. intros [_ [Hd _]] [_ [Hd' _]]. simpl in Hd, Hd'. lia. Qed.

(** Row [t] of the signal frame: a Buy, a Sell or the zero row. *)
Lemma signal_frame_cases df t k r :
  nth_error (signal_frame df) t = Some (k, r) ->
  (t < length df)%nat /\ fst (nth t df (0%Z, nan_jrow)) = k /\
  ((buy_condition df t /\ r = buy_row (jclose (jrow_at df t))) \/
   (sell_condition df t /\ r = sell_row (jclose (jrow_at df t))) \/
   (~ buy_condition df t /\ ~ sell_condition df t /\ r = zero_sig_row)).
Proof.
  rewrite signal_frame_row. destruct (nth_error df t) as [[k0 r0]|] eqn:E; [|discriminate].
  assert (Ht : (t < length df)%nat) by (apply nth_error_Some; congruence).
  assert (Hk : fst (nth t df (0%Z, nan_jrow)) = k0) by (now rewrite (nth_error_nth _ _ _ E)).
  simpl. intros Hr. split; [exact Ht|].
  destruct t as [|t'].
  - injection Hr as <- <-. split; [exact Hk|]. right; right.
    repeat split; auto; intros [H _]; lia.
  - cbn [Nat.leb] in Hr. unfold signal_update in Hr.
    rewrite nth_status_col, nth_shift1 in Hr by (rewrite ?length_status_col; lia).
    rewrite nth_status_col in Hr. cbn [option_map] in Hr.
    change (snd (nth (S t') df (0%Z, nan_jrow))) with (jrow_at df (S t')) in Hr.
    destruct (diff_is _ 2 1 && cell_lt _ (-75)) eqn:Eb.
    + apply andb_true_iff in Eb as [Ed Ey]. apply diff_is_true in Ed. apply cell_lt_true in Ey.
      injection Hr as <- <-. split; [exact Hk|]. left. split; [|reflexivity].
      split; [lia|]. split; [cbv zeta; lia|exact Ey].
    + assert (Hnb : ~ buy_condition df (S t')).
      { intros [_ [Hd Hy]]. apply andb_false_iff in Eb as [Eb|Eb].
        - assert (H : diff_is (Some (status_at df (S t') - status_at df (S t' - 1))%Z) 2 1 = true)
            by (apply diff_is_true; cbv zeta in Hd; lia).
          congruence.
        - apply cell_lt_true in Hy. congruence. }
      destruct (diff_is _ (-2) (-1) && cell_gt _ 75) eqn:Es.
      * apply andb_true_iff in Es as [Ed Ey]. apply diff_is_true in Ed. apply cell_gt_true in Ey.
        injection Hr as <- <-. split; [exact Hk|]. right; left. split; [|reflexivity].
        split; [lia|]. split; [cbv zeta; lia|exact Ey].
      * injection Hr as <- <-. split; [exact Hk|]. right; right. split; [exact Hnb|].
        split; [|reflexivity]. intros [_ [Hd Hy]]. apply andb_false_iff in Es as [Es|Es].
        -- assert (H : diff_is (Some (status_at df (S t') - status_at df (S t' - 1))%Z) (-2) (-1) = true)
             by (apply diff_is_true; cbv zeta in Hd; lia).
           congruence.
        -- apply cell_gt_true in Hy. congruence.
Qed.

Lemma trading_signal_ok st sigs st' :
  trading_signal st = (Ok sigs, st') ->
  exists df, signal_input st = Some df /\ sigs = signal_frame df.
Proof.
  unfold trading_signal, signal_input, bind, get_bot, put_bot, ret, raise.
  destruct (ying_yang_vol st) as [vf|], (pan_bands st) as [bf|]; try discriminate.
  destruct (price st) as [p|]; [|discriminate]. intros [= <- _]. eauto.
Qed.

Lemma length_signal_frame df : length (signal_frame df) = length df.
Proof.
  apply Nat.le_antisymm.
  - destruct (Nat.le_gt_cases (length (signal_frame df)) (length df)) as [H|H]; auto.
    assert (E : nth_error (signal_frame df) (length df) <> None) by (apply nth_error_Some; lia).
    rewrite signal_frame_row, (proj2 (nth_error_None df (length df))) in E by lia. now contradiction E.
  - destruct (Nat.le_gt_cases (length df) (length (signal_frame df))) as [H|H]; auto.
    assert (E : nth_error df (length (signal_frame df)) <> None) by (apply nth_error_Some; lia).
    assert (E' : nth_error (signal_frame df) (length (signal_frame df)) = None)
      by (apply nth_error_None; lia).
    rewrite signal_frame_row in E'. destruct (nth_error df _); [discriminate|contradiction].
Qed.

(** ** Claims about the signal engine *)

(** C1: for the joined frame [df] that [trading_signal] reads, at every
    timestamp t the status is +1, -1 or 0 as YYL(t) is above, below or equal
    to YYL_slow(t) (0 when either is missing); the row of the signal frame is a
    Buy (Signal = 1) with Entry_Price = close(t) iff the status change
    d = status(t) - status(t-1) is 1 or 2 and YYL(t) < -75; a Sell (Signal = -1)
    with Exit_Price = close(t) iff d is -1 or -2 and YYL(t) > 75; Signal = 0
    otherwise; and the first row is never a Buy or a Sell. *)
Theorem trading_signal_events st sigs st' :
  trading_signal st = (Ok sigs, st') ->
  exists df, signal_input st = Some df /\ length sigs = length df /\
  forall t k r, nth_error sigs t = Some (k, r) ->
    fst (nth t df (0%Z, nan_jrow)) = k /\
    status_spec (YYL (jv (jrow_at df t))) (YYL_slow (jv (jrow_at df t))) (status_at df t) /\
    ((Signal r = Some 1 /\ Entry_Price r = jclose (jrow_at df t)) <-> buy_condition df t) /\
    ((Signal r = Some (-1) /\ Exit_Price r = jclose (jrow_at df t)) <-> sell_condition df t) /\
    (Signal r = Some 0 <-> ~ buy_condition df t /\ ~ sell_condition df t) /\
    (t = 0%nat -> Signal r = Some 0).
Proof.
  intros H. destruct (trading_signal_ok _ _ _ H) as [df [Hdf ->]].
  exists df. split; [exact Hdf|]. split; [apply length_signal_frame|].
  intros t k r Hr. destruct (signal_frame_cases _ _ _ _ Hr) as [_ [Hk Hc]].
  split; [exact Hk|]. split; [apply status_of_spec|].
  assert (Hns : buy_condition df t -> ~ sell_condition df t) by apply buy_not_sell.
  destruct Hc as [[Hb ->]|[[Hs ->]|[Hnb [Hns' ->]]]];
    cbn [Signal Entry_Price Exit_Price buy_row sell_row zero_sig_row].
  - split; [split; auto|]. split; [split; [intros [Hx _]; injection Hx; lra|intros Hs; now destruct (Hns Hb)]|].
    split; [split; [intros Hx; injection Hx; lra|intros [Hx _]; contradiction]|].
    intros ->. destruct Hb as [Hb _]; lia.
  - assert (Hnb : ~ buy_condition df t) by (intros Hb; exact (Hns Hb Hs)).
    split; [split; [intros [Hx _]; injection Hx; lra|intros Hb; contradiction]|].
    split; [split; auto|].
    split; [split; [intros Hx; injection Hx; lra|intros [_ Hx]; contradiction]|].
    intros ->. destruct Hs as [Hs _]; lia.
  - split; [split; [intros [Hx _]; injection Hx; lra|intros Hb; contradiction]|].
    split; [split; [intros [Hx _]; injection Hx; lra|intros Hs; contradiction]|].
    split; [split; auto|]. auto.
Qed.

Lemma keys_signal_frame df : keys (signal_frame df) = keys df.
Proof.
  apply nth_error_ext. intros t. unfold keys. rewrite !nth_error_map.
  destruct (nth_error (signal_frame df) t) as [[k r]|] eqn:E.
  - destruct (signal_frame_cases _ _ _ _ E) as [Ht [Hk _]].
    destruct (nth_error df t) as [[k' r']|] eqn:E'.
    + rewrite (nth_error_nth _ _ _ E') in Hk. simpl in *. congruence.
    + apply nth_error_None in E'. lia.
  - apply nth_error_None in E. rewrite length_signal_frame in E.
    now rewrite (proj2 (nth_error_None df t) E).
Qed.

(** C10 (as amended): the signal frame of [trading_signal] has one row per
    timestamp of the joined frame; at every row, t = 0 included, Signal and
    Position are defined, Position is 0, and Entry_Price and Exit_Price are
    defined whenever close(t) is; Entry_Price differs from 0 only on a Buy row
    (Signal = 1), where it is close(t), and Exit_Price only on a Sell row
    (Signal = -1), where it is close(t). *)
Theorem signal_frame_defaults st sigs st' :
  trading_signal st = (Ok sigs, st') ->
  exists df, signal_input st = Some df /\ keys sigs = keys df /\
  forall t k r, nth_error sigs t = Some (k, r) ->
    Signal r <> None /\ Position r = Some 0 /\
    (jclose (jrow_at df t) <> None -> Entry_Price r <> None /\ Exit_Price r <> None) /\
    (Entry_Price r <> Some 0 -> Signal r = Some 1 /\ Entry_Price r = jclose (jrow_at df t)) /\
    (Exit_Price r <> Some 0 -> Signal r = Some (-1) /\ Exit_Price r = jclose (jrow_at df t)).
Proof.
  intros H. destruct (trading_signal_ok _ _ _ H) as [df [Hdf ->]].
  exists df. split; [exact Hdf|]. split; [apply keys_signal_frame|].
  intros t k r Hr. destruct (signal_frame_cases _ _ _ _ Hr) as [_ [_ Hc]].
  destruct Hc as [[_ ->]|[[_ ->]|[_ [_ ->]]]]; cbn [buy_row sell_row zero_sig_row Signal Position
    Entry_Price Exit_Price]; repeat split; try discriminate; try tauto.
Qed.

(** ** Claims about the summarizer *)

Lemma last_opt_app {A : Type} (pre : list A) x : last_opt (pre ++ [x]) = Some x.
Proof.
  destruct pre as [|y pre]; simpl; auto. f_equal. apply last_last.
Qed.

Lemma dropna_complete rows k r :
  In (k, r) (dropna rows) -> forall c, In c (row_cells r) -> c <> None.
Proof.
  unfold dropna. intros H. apply filter_In in H as [_ H].
  rewrite forallb_forall in H. intros c Hc E. specialize (H c Hc). now subst.
Qed.

Lemma direction_cases x :
  (x = 1 -> direction (Some x) = "Buy"%string) /\
  (x = -1 -> direction (Some x) = "Sell"%string) /\
  (x <> 1 -> x <> -1 -> direction (Some x) = "No Signal"%string).
Proof.
  unfold direction. repeat split; intros; subst.
  - destruct (Req_EM_T 1 1); [reflexivity|lra].
  - destruct (Req_EM_T (-1) 1); [lra|]. destruct (Req_EM_T (-1) (-1)); [reflexivity|lra].
  - destruct (Req_EM_T x 1); [lra|]. destruct (Req_EM_T x (-1)); [lra|reflexivity].
Qed.

(** C9: let [rows] be the joined price, volatility, band and signal frames
    after every row with a missing value is dropped.  If no row remains,
    [get_last_signal] raises (the IndexError of [df.index[-1]]); otherwise
    it returns the last remaining row: its timestamp, its close price (defined)
    and its Signal mapped 1 -> Buy, -1 -> Sell, anything else -> No Signal. *)
Theorem get_last_signal_rows st rows :
  cleaned_rows st = Some rows ->
  (rows = [] -> exists st', get_last_signal st = (Err IndexError, st')) /\
  (forall pre k r, rows = pre ++ [(k, r)] ->
     let s := summary_of (symbol st) k r in
     get_last_signal st = (Ok s, set_last st s) /\
     timestamp s = k /\ entry_price s = fclose r /\ fclose r <> None /\
     Ticker s = symbol st /\
     exists v, Signal (fs r) = Some v /\
       (v = 1 -> last_signal_text s = "Buy"%string) /\
       (v = -1 -> last_signal_text s = "Sell"%string) /\
       (v <> 1 -> v <> -1 -> last_signal_text s = "No Signal"%string)).
Proof.
  unfold cleaned_rows, get_last_signal, bind, get_bot, put_bot, ret, raise.
  destruct (ying_yang_vol st) as [vf|], (pan_bands st) as [bf|], (price st) as [p|],
    (signals st) as [sg|]; try discriminate.
  intros [= Hrows]. split.
  - intros ->. rewrite Hrows. simpl. eauto.
  - intros pre k r Hpre. rewrite Hrows, Hpre, last_opt_app. split; [reflexivity|].
    assert (Hin : In (k, r) (dropna (join_all vf bf p sg)))
      by (rewrite Hrows, Hpre; apply in_or_app; right; left; reflexivity).
    pose proof (dropna_complete _ _ _ Hin) as Hc.
    assert (Hcl : fclose r <> None) by (apply Hc; unfold row_cells; simpl; tauto).
    assert (Hsg : Signal (fs r) <> None) by (apply Hc; unfold row_cells; simpl; tauto).
    repeat split; auto.
    destruct (Signal (fs r)) as [v|] eqn:Ev; [|contradiction].
    exists v. unfold summary_of; cbn [last_signal_text]. rewrite Ev. split; [reflexivity|].
    apply direction_cases.
Qed.

(** ** Rolling windows *)

Lemma window_cells_in w xs t x :
  In x (window_cells w xs t) -> exists j, (S t - w <= j <= t)%nat /\ x = nth j xs None.
Proof.
  unfold window_cells. intros H. apply in_map_iff in H as [j [<- Hj]].
  apply in_seq in Hj. exists j. split; [lia|reflexivity].
Qed.

Lemma length_window_cells w xs t : length (window_cells w xs t) = (S t - (S t - w))%nat.
Proof. unfold window_cells. now rewrite length_map, length_seq. Qed.

Lemma in_somes x l : In x (somes l) <-> In (Some x) l.
Proof.
  induction l as [|[y|] l IH]; simpl; [tauto| |].
  - rewrite IH. split; intros [H|H]; auto; [left; congruence|left; congruence].
  - rewrite IH. split; [auto|]. intros [H|H]; [discriminate|auto].
Qed.

Lemma length_somes_all l : (forall x, In x l -> x <> None) -> length (somes l) = length l.
Proof.
  induction l as [|[y|] l IH]; simpl; intros H; [reflexivity| |].
  - f_equal. apply IH. intros x Hx. apply H. now right.
  - exfalso. now apply (H None); [left|].
Qed.

Lemma nth_some_in (xs : list cell) j x : nth j xs None = Some x -> In (Some x) xs.
Proof.
  intros H. destruct (Nat.lt_ge_cases j (length xs)) as [Hj|Hj].
  - rewrite <- H. now apply nth_In.
  - rewrite nth_overflow in H by exact Hj. discriminate.
Qed.

Lemma window_mean_some w xs t :
  (1 <= w)%nat -> (w <= S t)%nat ->
  (forall j, (S t - w <= j <= t)%nat -> nth j xs None <> None) ->
  exists m, window_mean w xs t = Some m.
Proof.
  intros H1 H2 Hd. unfold window_mean.
  rewrite length_somes_all.
  - rewrite length_window_cells.
    replace (S t - (S t - w))%nat with w by lia.
    rewrite Nat.leb_refl. replace (0 <? w)%nat with true by (symmetry; apply Nat.ltb_lt; lia).
    simpl. eauto.
  - intros x Hx. apply window_cells_in in Hx as [j [Hj ->]]. now apply Hd.
Qed.

Lemma window_mean_obs w xs t m :
  window_mean w xs t = Some m ->
  exists obs, obs <> [] /\ (forall x, In x obs -> In (Some x) xs) /\
              m = sum obs / INR (length obs).
Proof.
  unfold window_mean. set (obs := somes (window_cells w xs t)).
  destruct ((w <=? length obs)%nat && (0 <? length obs)%nat) eqn:E; [|discriminate].
  intros [= <-]. exists obs. apply andb_true_iff in E as [_ E]. apply Nat.ltb_lt in E.
  split; [intros Hn; rewrite Hn in E; simpl in E; lia|]. split; [|reflexivity].
  intros x Hx. apply in_somes in Hx. apply window_cells_in in Hx as [j [_ Hj]].
  now apply (nth_some_in _ j).
Qed.

Lemma sum_nonneg l : (forall x, In x l -> 0 <= x) -> 0 <= sum l.
Proof.
  induction l as [|x l IH]; simpl; intros H; [lra|].
  pose proof (H x (or_introl eq_refl)). pose proof (IH (fun y Hy => H y (or_intror Hy))). lra.
Qed.

Lemma sum_const l c : (forall x, In x l -> x = c) -> sum l = INR (length l) * c.
Proof.
  induction l as [|x l IH]; unfold sum in *; cbn [fold_right length]; intros H; [simpl; lra|].
  rewrite (H x (or_introl eq_refl)), IH by (intros y Hy; apply H; now right).
  rewrite S_INR. lra.
Qed.

Lemma mean_nonneg l : l <> [] -> (forall x, In x l -> 0 <= x) -> 0 <= sum l / INR (length l).
Proof.
  intros Hn H. unfold Rdiv. apply Rmult_le_pos; [now apply sum_nonneg|].
  left. apply Rinv_0_lt_compat, lt_0_INR. destruct l; [congruence|simpl; lia].
Qed.

Lemma mean_const l c : l <> [] -> (forall x, In x l -> x = c) -> sum l / INR (length l) = c.
Proof.
  intros Hn H. rewrite (sum_const l c H). field.
  apply not_0_INR. destruct l; [congruence|simpl; lia].
Qed.

(** Where a rolling mean is defined, it is the mean of values of the column. *)
Lemma rolling_mean_values (P : R -> Prop) w xs m :
  (forall obs, obs <> [] -> (forall x, In x obs -> P x) -> P (sum obs / INR (length obs))) ->
  (forall x, In (Some x) xs -> P x) ->
  In (Some m) (rolling_mean w xs) -> P m.
Proof.
  intros Hmean Hxs Hm. unfold rolling_mean in Hm. apply in_map_iff in Hm as [t [Ht _]].
  destruct (window_mean_obs _ _ _ _ Ht) as [obs [Hn [Hin ->]]].
  apply Hmean; auto.
Qed.

Lemma rolling_mean_defined w xs t :
  (1 <= w)%nat -> (w <= S t)%nat -> (t < length xs)%nat ->
  (forall j, (S t - w <= j <= t)%nat -> nth j xs None <> None) ->
  nth t (rolling_mean w xs) None <> None.
Proof.
  intros H1 H2 H3 Hd. rewrite nth_rolling_mean by exact H3.
  destruct (window_mean_some w xs t H1 H2 Hd) as [m ->]. discriminate.
Qed.

(** ** Constant price series *)

Lemma zip_with_in {A B C : Type} (f : A -> B -> C) xs ys z :
  In z (zip_with f xs ys) -> exists x y, In x xs /\ In y ys /\ z = f x y.
Proof.
  revert ys; induction xs as [|x xs IH]; intros [|y ys]; simpl; try tauto.
  intros [<-|H].
  - exists x, y. auto.
  - destruct (IH ys H) as [x' [y' [? [? ->]]]]. exists x', y'. auto.
Qed.

Lemma in_map_some (l : list R) x : In (Some x) (map Some l) -> In x l.
Proof.
  intros H. apply in_map_iff in H as [y [[= ->] Hy]]. exact Hy.
Qed.

Lemma ewm_from_const a c xs :
  (forall x, In x xs -> x = c) -> forall y, In y (ewm_from a c xs) -> y = c.
Proof.
  induction xs as [|x xs IH]; simpl; intros H y Hy; [tauto|].
  rewrite (H x (or_introl eq_refl)) in Hy.
  replace ((1 - a) * c + a * c) with c in Hy by ring.
  destruct Hy as [<-|Hy]; auto.
Qed.

Lemma ewm_mean_const n xs c :
  (forall x, In x xs -> x = c) -> forall y, In y (ewm_mean n xs) -> y = c.
Proof.
  destruct xs as [|x xs]; simpl; intros H y Hy; [tauto|].
  rewrite (H x (or_introl eq_refl)) in Hy.
  destruct Hy as [<-|Hy]; auto.
  apply (ewm_from_const (ewm_alpha n) c xs); auto.
Qed.

Lemma rolling_mean_const w xs c :
  (forall x, In (Some x) xs -> x = c) -> forall m, In (Some m) (rolling_mean w xs) -> m = c.
Proof.
  intros H m. apply (rolling_mean_values (fun x => x = c)); auto.
  intros obs Hn Hobs. now apply mean_const.
Qed.

Section ConstantSeries.
Variables (e : bool) (w : nat) (cl : list R) (c : R).
Hypothesis Hconst : forall x, In x cl -> x = c.

Lemma ma_col_const m : In (Some m) (ma_col e w cl) -> m = c.
Proof.
  unfold ma_col. destruct e; intros H.
  - apply in_map_some in H. now apply (ewm_mean_const w cl c).
  - apply (rolling_mean_const w (map Some cl) c); auto.
    intros x Hx. now apply Hconst, in_map_some.
Qed.

Lemma diff_col_const d : In (Some d) (diff_col e w cl) -> d = 0.
Proof.
  unfold diff_col. intros H. apply zip_with_in in H as [[x|] [[y|] [Hx [Hy E]]]];
    simpl in E; try discriminate.
  injection E as ->. apply in_map_some, Hconst in Hx. apply ma_col_const in Hy. lra.
Qed.

Lemma masked_diff_const (f : R -> R) x :
  f 0 = 0 -> In (Some x) (map (cell_map f) (diff_col e w cl)) -> x = 0.
Proof.
  intros Hf H. apply in_map_iff in H as [[d|] [E Hd]]; simpl in E; [|discriminate].
  injection E as <-. rewrite (diff_col_const d Hd). exact Hf.
Qed.

Lemma yang_col_const a : In (Some a) (yang_col e w cl) -> a = 0.
Proof.
  unfold yang_col. intros H. apply in_map_iff in H as [x [E Hx]].
  apply sqrt_cell_some in E as [y [-> [_ ->]]].
  assert (y = 0) as ->; [|apply sqrt_0].
  apply (rolling_mean_const w (map pos_part_sq (diff_col e w cl)) 0); [|exact Hx].
  intros z Hz. apply (masked_diff_const (fun x => x ^ 2 * (if Rgt_dec x 0 then 1 else 0)));
    [simpl; ring|exact Hz].
Qed.

Lemma ying_col_const b : In (Some b) (ying_col e w cl) -> b = 0.
Proof.
  unfold ying_col. intros H. apply in_map_iff in H as [x [E Hx]].
  apply sqrt_cell_some in E as [y [-> [_ ->]]].
  assert (y = 0) as ->; [|apply sqrt_0].
  apply (rolling_mean_const w (map neg_part_sq (diff_col e w cl)) 0); [|exact Hx].
  intros z Hz. apply (masked_diff_const (fun x => x ^ 2 * (if Rle_dec x 0 then 1 else 0)));
    [simpl; ring|exact Hz].
Qed.

Lemma total_col_const t :
  (t < length cl)%nat ->
  nth t (yang_col e w cl) None <> None -> nth t (ying_col e w cl) None <> None ->
  nth t (total_col e w cl) None = Some 0.
Proof.
  intros Ht Ha Hb. unfold total_col. rewrite nth_map_cell by reflexivity.
  rewrite (nth_zip_with _ _ _ _ (None : cell) (None : cell))
    by (rewrite length_map; try rewrite length_yang_col; try rewrite length_ying_col; lia).
  rewrite !nth_map_cell by reflexivity.
  destruct (nth t (yang_col e w cl) None) as [a|] eqn:Ea; [|congruence].
  destruct (nth t (ying_col e w cl) None) as [b|] eqn:Eb; [|congruence].
  rewrite (yang_col_const a) by (now apply (nth_some_in _ t)).
  rewrite (ying_col_const b) by (now apply (nth_some_in _ t)).
  cbn [cell_map cell_lift2 sqrt_cell]. replace (0 ^ 2 + 0 ^ 2) with 0 by ring.
  destruct (Rlt_dec 0 0); [lra|]. now rewrite sqrt_0.
Qed.

Lemma YYL_col_const t : nth t (YYL_col e w cl) None = None.
Proof.
  destruct (Nat.lt_ge_cases t (length cl)) as [Ht|Ht].
  - destruct (nth t (YYL_col e w cl) None) as [y|] eqn:E; [|reflexivity].
    destruct (YYL_col_def e w cl t y Ht E) as [a [b [v [Ea [Eb [Ev [Hv _]]]]]]].
    exfalso. apply Hv.
    assert (Hv' := total_col_const t Ht ltac:(congruence) ltac:(congruence)).
    congruence.
  - apply nth_overflow. now rewrite length_YYL_col.
Qed.
End ConstantSeries.

(** C6: on a constant price series, [calculate_volatility] returns normally;
    at every row, a defined [yang_vol] or [ying_vol] is 0, [total_vol] is 0
    where both are defined, and the oscillator [YYL] is missing. *)
Theorem constant_price_flat st p c :
  price st = Some p -> p <> [] -> (forall r, In r p -> close r = c) ->
  (1 <= window st)%Z -> (0 <= span st)%Z ->
  exists vf, calculate_volatility st = (Ok vf, set_vol st vf) /\
    forall k row, In (k, row) vf ->
      (forall a, yang_vol row = Some a -> a = 0) /\
      (forall b, ying_vol row = Some b -> b = 0) /\
      (yang_vol row <> None -> ying_vol row <> None -> total_vol row = Some 0) /\
      YYL row = None.
Proof.
  intros Hp Hne Hc Hw Hs.
  exists (volatility_frame (ema st) (Z.to_nat (window st)) (Z.to_nat (span st)) p).
  split; [now apply calculate_volatility_ok|].
  intros k row Hin.
  assert (Hcl : forall x, In x (closes p) -> x = c).
  { intros x Hx. unfold closes in Hx. apply in_map_iff in Hx as [r [<- Hr]]. now apply Hc. }
  destruct (volatility_frame_row _ _ _ _ _ _ Hin) as [t [Ht [_ [Ea [Eb [Ev [Ey _]]]]]]].
  assert (Htc : (t < length (closes p))%nat) by (unfold closes; now rewrite length_map).
  repeat split.
  - intros a Ha. rewrite Ea in Ha. apply (yang_col_const (ema st) (Z.to_nat (window st)) (closes p) c Hcl). now apply (nth_some_in _ t).
  - intros b Hb. rewrite Eb in Hb. apply (ying_col_const (ema st) (Z.to_nat (window st)) (closes p) c Hcl). now apply (nth_some_in _ t).
  - intros Ha Hb. rewrite Ev. rewrite Ea in Ha. rewrite Eb in Hb.
    now apply (total_col_const (ema st) (Z.to_nat (window st)) (closes p) c Hcl).
  - rewrite Ey. now apply (YYL_col_const (ema st) (Z.to_nat (window st)) (closes p) c Hcl).
Qed.

(** ** Definedness after the warm-up rows *)

Lemma nth_map_Some (l : list R) t :
  (t < length l)%nat -> nth t (map Some l) None = Some (nth t l 0).
Proof.
  intros H. rewrite nth_indep with (d' := Some 0) by (rewrite length_map; lia).
  apply map_nth.
Qed.

Section Warmup.
Variables (e : bool) (w : nat) (cl : list R).
Hypothesis Hw : (1 <= w)%nat.

(** The baseline is defined from row 0 (exponential) or from row
    [window - 1] (simple). *)
Lemma ma_col_defined t :
  ((if e then 0 else w - 1) <= t)%nat -> (t < length cl)%nat ->
  nth t (ma_col e w cl) None <> None.
Proof.
  intros H1 H2. unfold ma_col. destruct e.
  - rewrite nth_map_Some by (rewrite length_ewm_mean; lia). discriminate.
  - apply rolling_mean_defined; try lia; [now rewrite length_map|].
    intros j Hj. rewrite nth_map_Some by lia. discriminate.
Qed.

Lemma diff_col_defined t :
  ((if e then 0 else w - 1) <= t)%nat -> (t < length cl)%nat ->
  nth t (diff_col e w cl) None <> None.
Proof.
  intros H1 H2. unfold diff_col.
  rewrite (nth_zip_with _ _ _ _ (None : cell) (None : cell))
    by (rewrite ?length_map, ?length_ma_col; lia).
  rewrite nth_map_Some by lia.
  destruct (nth t (ma_col e w cl) None) eqn:E; [discriminate|].
  exfalso. now apply (ma_col_defined t).
Qed.

Lemma masked_vol_defined (f : R -> R) t :
  (forall x, 0 <= f x) ->
  ((if e then 0 else w - 1) + w - 1 <= t)%nat -> (t < length cl)%nat ->
  nth t (map sqrt_cell (rolling_mean w (map (cell_map f) (diff_col e w cl)))) None <> None.
Proof.
  intros Hf H1 H2. rewrite nth_map_cell by reflexivity.
  assert (Hd : nth t (rolling_mean w (map (cell_map f) (diff_col e w cl))) None <> None).
  { apply rolling_mean_defined; try lia.
    - now rewrite length_map, length_diff_col.
    - intros j Hj. rewrite nth_map_cell by reflexivity.
      destruct (nth j (diff_col e w cl) None) eqn:E; [discriminate|].
      exfalso. apply (diff_col_defined j); auto; destruct e; lia. }
  destruct (nth t (rolling_mean w (map (cell_map f) (diff_col e w cl))) None) as [m|] eqn:E;
    [|contradiction].
  assert (Hm : 0 <= m).
  { apply (rolling_mean_values (fun x => 0 <= x) w (map (cell_map f) (diff_col e w cl)) m).
    - intros obs Hn Hobs. now apply mean_nonneg.
    - intros x Hx. apply in_map_iff in Hx as [[d|] [Ed _]]; simpl in Ed; [|discriminate].
      injection Ed as <-. apply Hf.
    - rewrite <- E. apply nth_In.
      rewrite length_rolling_mean, length_map, length_diff_col; lia. }
  simpl. destruct (Rlt_dec m 0); [lra|discriminate].
Qed.

Lemma yang_col_defined t :
  ((if e then 0 else w - 1) + w - 1 <= t)%nat -> (t < length cl)%nat ->
  nth t (yang_col e w cl) None <> None.
Proof.
  apply (masked_vol_defined (fun x => x ^ 2 * (if Rgt_dec x 0 then 1 else 0))).
  intros x. pose proof (pow2_ge_0 x). destruct (Rgt_dec x 0); lra.
Qed.

Lemma ying_col_defined t :
  ((if e then 0 else w - 1) + w - 1 <= t)%nat -> (t < length cl)%nat ->
  nth t (ying_col e w cl) None <> None.
Proof.
  apply (masked_vol_defined (fun x => x ^ 2 * (if Rle_dec x 0 then 1 else 0))).
  intros x. pose proof (pow2_ge_0 x). destruct (Rle_dec x 0); lra.
Qed.

Lemma total_col_defined t :
  ((if e then 0 else w - 1) + w - 1 <= t)%nat -> (t < length cl)%nat ->
  nth t (total_col e w cl) None <> None.
Proof.
  intros H1 H2. unfold total_col. rewrite nth_map_cell by reflexivity.
  rewrite (nth_zip_with _ _ _ _ (None : cell) (None : cell))
    by (rewrite length_map; try rewrite length_yang_col; try rewrite length_ying_col; lia).
  rewrite !nth_map_cell by reflexivity.
  pose proof (yang_col_defined t H1 H2) as Ha. pose proof (ying_col_defined t H1 H2) as Hb.
  destruct (nth t (yang_col e w cl) None) as [a|]; [|congruence].
  destruct (nth t (ying_col e w cl) None) as [b|]; [|congruence].
  cbn [cell_map cell_lift2 sqrt_cell].
  pose proof (pow2_ge_0 a). pose proof (pow2_ge_0 b).
  destruct (Rlt_dec (a ^ 2 + b ^ 2) 0); [lra|discriminate].
Qed.

Lemma YYL_col_defined t :
  ((if e then 0 else w - 1) + w - 1 <= t)%nat -> (t < length cl)%nat ->
  nth t (total_col e w cl) None <> Some 0 ->
  nth t (YYL_col e w cl) None <> None.
Proof.
  intros H1 H2 Hv. unfold YYL_col. rewrite nth_map_cell by reflexivity.
  rewrite (nth_zip_with _ _ _ _ (None : cell) (None : cell))
    by (rewrite ?length_zip_with, ?length_yang_col, ?length_ying_col, ?length_total_col; lia).
  rewrite (nth_zip_with _ _ _ _ (None : cell) (None : cell))
    by (rewrite ?length_yang_col, ?length_ying_col; lia).
  pose proof (yang_col_defined t H1 H2) as Ha. pose proof (ying_col_defined t H1 H2) as Hb.
  pose proof (total_col_defined t H1 H2) as Hc.
  destruct (nth t (yang_col e w cl) None) as [a|]; [|congruence].
  destruct (nth t (ying_col e w cl) None) as [b|]; [|congruence].
  destruct (nth t (total_col e w cl) None) as [v|]; [|congruence].
  simpl. destruct (Req_EM_T v 0); [congruence|discriminate].
Qed.
End Warmup.

Lemma YYL_slow_col_defined e w s cl t :
  (1 <= s)%nat -> (s <= S t)%nat -> (t < length cl)%nat ->
  (forall j, (S t - s <= j <= t)%nat -> nth j (YYL_col e w cl) None <> None) ->
  nth t (YYL_slow_col e w s cl) None <> None.
Proof.
  intros H1 H2 H3 Hd. unfold YYL_slow_col.
  apply rolling_mean_defined; auto. now rewrite length_YYL_col.
Qed.

Lemma length_volatility_frame e w s p : length (volatility_frame e w s p) = length p.
Proof. unfold volatility_frame. now rewrite length_map, length_seq. Qed.

Lemma volatility_frame_nth e w s p t :
  (t < length p)%nat ->
  nth_error (volatility_frame e w s p) t =
  Some (nth t (index p) 0%Z,
        {| ma := nth t (ma_col e w (closes p)) None;
           yang_vol := nth t (yang_col e w (closes p)) None;
           ying_vol := nth t (ying_col e w (closes p)) None;
           total_vol := nth t (total_col e w (closes p)) None;
           YYL := nth t (YYL_col e w (closes p)) None;
           YYL_slow := nth t (YYL_slow_col e w s (closes p)) None |}).
Proof.
  intros H. unfold volatility_frame. rewrite nth_error_map.
  rewrite (nth_error_nth' (seq 0 (length p)) 0%nat) by (rewrite length_seq; lia).
  rewrite seq_nth by lia. reflexivity.
Qed.

(** C2 (as amended): with window >= 1 and span >= 1, every column of the
    VolatilityFrame is defined at row [t] once [t >= window + span - 2]
    (exponential baseline) or [t >= 2 window + span - 3] (simple baseline),
    provided [total_vol] is nonzero on the [span] rows ending at [t]. *)
Theorem volatility_frame_defined (e : bool) (w s : nat) (p : Price) (t : nat) (k : Z) (row : VolRow) :
  (1 <= w)%nat -> (1 <= s)%nat ->
  ((if e then w + s - 2 else 2 * w + s - 3) <= t)%nat ->
  nth_error (volatility_frame e w s p) t = Some (k, row) ->
  (forall j kj rj, (S t - s <= j <= t)%nat ->
     nth_error (volatility_frame e w s p) j = Some (kj, rj) -> total_vol rj <> Some 0) ->
  ma row <> None /\ yang_vol row <> None /\ ying_vol row <> None /\
  total_vol row <> None /\ YYL row <> None /\ YYL_slow row <> None.
Proof.
  intros Hw Hs Hwarm Hrow Hnz.
  assert (Ht : (t < length p)%nat).
  { rewrite <- (length_volatility_frame e w s p). apply nth_error_Some. congruence. }
  assert (Hlen : length (closes p) = length p) by (unfold closes; apply length_map).
  rewrite volatility_frame_nth in Hrow by exact Ht. injection Hrow as _ <-. cbn.
  assert (Htot : forall j, (S t - s <= j <= t)%nat ->
                 nth j (total_col e w (closes p)) None <> Some 0).
  { intros j Hj. exact (Hnz j _ _ Hj (volatility_frame_nth e w s p j ltac:(lia))). }
  assert (Hwarm' : forall j, (S t - s <= j <= t)%nat ->
                   ((if e then 0 else w - 1) + w - 1 <= j)%nat)
    by (intros j Hj; destruct e; lia).
  assert (Ht' : ((if e then 0 else w - 1) + w - 1 <= t)%nat) by (apply Hwarm'; lia).
  repeat split.
  - apply ma_col_defined; auto; [destruct e; lia|lia].
  - apply yang_col_defined; auto; lia.
  - apply ying_col_defined; auto; lia.
  - apply total_col_defined; auto; lia.
  - apply YYL_col_defined; auto; [lia|]. apply Htot. lia.
  - apply YYL_slow_col_defined; [lia|destruct e; lia|lia|].
    intros j Hj. apply YYL_col_defined; [lia|apply Hwarm'; lia|lia|apply Htot; lia].
Qed.

(** ** The sample runs *)

Lemma cons_eq {A : Type} (a b : A) l l' : a = b -> l = l' -> a :: l = b :: l'.
Proof. intros -> ->. reflexivity. Qed.

Lemma sqrt_cell_eq x y : x = y ^ 2 -> 0 <= y -> sqrt_cell (Some x) = Some y.
Proof.
  intros -> Hy. cbn [sqrt_cell]. destruct (Rlt_dec (y ^ 2) 0); [nra|]. f_equal. now apply sqrt_pow2.
Qed.

Lemma root_half_pos : 0 < root_half.
Proof. unfold root_half. apply sqrt_lt_R0. lra. Qed.

Lemma root_half_sq : root_half ^ 2 = 1 / 2.
Proof. unfold root_half. rewrite <- Rsqr_pow2. apply Rsqr_sqrt. lra. Qed.

Lemma rolling_mean_2_3 (a b c : cell) :
  rolling_mean 2 [a; b; c] =
  [None;
   match a, b with Some x, Some y => Some ((x + (y + 0)) / INR 2) | _, _ => None end;
   match b, c with Some x, Some y => Some ((x + (y + 0)) / INR 2) | _, _ => None end].
Proof. destruct a, b, c; reflexivity. Qed.

Lemma P1_ma : ma_col true 2 (closes P1) = [Some 3; Some 1; Some (41 / 30)].
Proof.
  cbn [ma_col ewm_mean ewm_from closes P1 map candle close].
  replace (ewm_alpha 2) with (2 / 3) by (unfold ewm_alpha; simpl; field).
  cells; field.
Qed.

Lemma P1_diff : diff_col true 2 (closes P1) = [Some 0; Some (-1); Some (11 / 60)].
Proof.
  unfold diff_col. rewrite P1_ma. cbn [closes P1 map candle close zip_with cell_lift2].
  cells; field.
Qed.

Lemma P1_pos : map pos_part_sq (diff_col true 2 (closes P1)) = [Some 0; Some 0; Some ((11 / 60) ^ 2)].
Proof.
  rewrite P1_diff. cbn [map pos_part_sq cell_map].
  destruct (Rgt_dec 0 0); [lra|]. destruct (Rgt_dec (-1) 0); [lra|].
  destruct (Rgt_dec (11 / 60) 0); [|lra]. cells; ring.
Qed.

Lemma P1_neg : map neg_part_sq (diff_col true 2 (closes P1)) = [Some 0; Some 1; Some 0].
Proof.
  rewrite P1_diff. cbn [map neg_part_sq cell_map].
  destruct (Rle_dec 0 0); [|lra]. destruct (Rle_dec (-1) 0); [|lra].
  destruct (Rle_dec (11 / 60) 0); [lra|]. cells; ring.
Qed.

Lemma P1_yang : yang_col true 2 (closes P1) = [None; Some 0; Some (11 / 60 * root_half)].
Proof.
  unfold yang_col. rewrite P1_pos, rolling_mean_2_3. cbn [map].
  pose proof root_half_pos. pose proof root_half_sq.
  apply cons_eq; [reflexivity|]. apply cons_eq; [|apply cons_eq; [|reflexivity]].
  - apply sqrt_cell_eq; [simpl; field|lra].
  - apply sqrt_cell_eq; [|nra]. replace ((11 / 60 * root_half) ^ 2) with ((11 / 60) ^ 2 * root_half ^ 2) by ring.
    rewrite root_half_sq. simpl. field.
Qed.

Lemma P1_ying : ying_col true 2 (closes P1) = [None; Some root_half; Some root_half].
Proof.
  unfold ying_col. rewrite P1_neg, rolling_mean_2_3. cbn [map].
  pose proof root_half_pos. pose proof root_half_sq.
  apply cons_eq; [reflexivity|]. apply cons_eq; [|apply cons_eq; [|reflexivity]].
  - apply sqrt_cell_eq; [|lra]. rewrite root_half_sq. simpl. field.
  - apply sqrt_cell_eq; [|lra]. rewrite root_half_sq. simpl. field.
Qed.

Lemma P1_total : total_col true 2 (closes P1) = [None; Some root_half; Some (61 / 60 * root_half)].
Proof.
  unfold total_col. rewrite P1_yang, P1_ying. cbn [map zip_with cell_map cell_lift2].
  pose proof root_half_pos.
  apply cons_eq; [reflexivity|]. apply cons_eq; [|apply cons_eq; [|reflexivity]].
  - apply sqrt_cell_eq; [ring|lra].
  - apply sqrt_cell_eq; [field|nra].
Qed.

Lemma P1_YYL : YYL_col true 2 (closes P1) = [None; Some (-100); Some (-4900 / 61)].
Proof.
  unfold YYL_col. rewrite P1_yang, P1_ying, P1_total. cbn [map zip_with cell_map cell_lift2 cell_div].
  pose proof root_half_pos.
  destruct (Req_EM_T root_half 0); [lra|].
  destruct (Req_EM_T (61 / 60 * root_half) 0); [lra|].
  cbn [cell_map]. cells; field; lra.
Qed.

Lemma P1_YYL_slow : YYL_slow_col true 2 2 (closes P1) = [None; None; Some (-5500 / 61)].
Proof.
  unfold YYL_slow_col. rewrite P1_YYL, rolling_mean_2_3. cells. simpl. field.
Qed.

(** The VolatilityFrame of [P1], window 2 and span 2. *)
Lemma demo_vol_rows :
  demo_vol =
  [(0%Z, {| ma := Some 3; yang_vol := None; ying_vol := None; total_vol := None;
            YYL := None; YYL_slow := None |});
   (1%Z, {| ma := Some 1; yang_vol := Some 0; ying_vol := Some root_half;
            total_vol := Some root_half; YYL := Some (-100); YYL_slow := None |});
   (2%Z, {| ma := Some (41 / 30); yang_vol := Some (11 / 60 * root_half);
            ying_vol := Some root_half; total_vol := Some (61 / 60 * root_half);
            YYL := Some (-4900 / 61); YYL_slow := Some (-5500 / 61) |})].
Proof.
  unfold demo_vol, volatility_frame. cbv zeta.
  rewrite P1_ma, P1_yang, P1_ying, P1_total, P1_YYL, P1_YYL_slow. reflexivity.
Qed.

(** With the price series downloaded again after the bands, the joined
    close is missing, and the Buy at row 2 stores a missing Entry_Price. *)
Lemma redownload_signals_missing_entry :
  exists sigs st', redownload_before_signals demo_bot = (Ok sigs, st') /\
    nth_error sigs 2 = Some (2%Z, {| Signal := Some 1; Position := Some 0;
                                      Entry_Price := None; Exit_Price := Some 0 |}).
Proof.
  assert (E : fst (redownload_before_signals demo_bot) =
              Ok (signal_frame (join_input demo_vol demo_bands P2))) by reflexivity.
  destruct (redownload_before_signals demo_bot) as [r st'] eqn:Hrun. cbn [fst] in E. subst r.
  exists (signal_frame (join_input demo_vol demo_bands P2)), st'. split; [reflexivity|].
  unfold signal_frame. rewrite demo_vol_rows. simpl.
  destruct (Rgt_dec (-4900 / 61) (-5500 / 61)); [|lra]. unfold signal_step. simpl.
  destruct (Rlt_dec (-4900 / 61) (-75)); [|lra]. reflexivity.
Qed.

(** With the price series downloaded again before the bands, the
    VolatilityFrame's index [0; 1; 2] differs from the price index
    [10; 11; 12], and [calculate_pan_bands] still returns normally. *)
Lemma redownload_bands_ok :
  exists bf st', redownload_before_bands demo_bot = (Ok bf, st') /\
    ying_yang_vol st' = Some demo_vol /\ keys demo_vol = [0%Z; 1%Z; 2%Z] /\
    price st' = Some P2 /\ index P2 = [10%Z; 11%Z; 12%Z].
Proof.
  assert (E : redownload_before_bands demo_bot =
              (Ok (band_frame 2 P2 demo_vol),
               set_bands (set_price (set_vol (set_price demo_bot (Some P1)) demo_vol) (Some P2))
                 (band_frame 2 P2 demo_vol))) by reflexivity.
  rewrite E. do 2 eexists. split; [reflexivity|]. repeat split; reflexivity.
Qed.

(** The signals of [P1]: a Buy at row 2, at the close 31/20. *)
Lemma demo_signals :
  signal_frame (join_input demo_vol demo_bands P1) =
  [(0%Z, zero_sig_row); (1%Z, zero_sig_row); (2%Z, buy_row (Some (31 / 20)))].
Proof.
  unfold signal_frame. rewrite demo_vol_rows. simpl.
  destruct (Rgt_dec (-4900 / 61) (-5500 / 61)); [|lra]. unfold signal_step. simpl.
  destruct (Rlt_dec (-4900 / 61) (-75)); [|lra]. reflexivity.
Qed.

Lemma demo_cleaned_rows :
  exists r, cleaned_rows demo_state_signals = Some [(2%Z, r)] /\ Signal (fs r) = Some 1 /\
            fclose r = Some (31 / 20).
Proof.
  eexists. unfold cleaned_rows, demo_state_signals. cbn [signals set_signals ying_yang_vol pan_bands price demo_state set_bands set_vol set_price demo_bot init_bot].
  rewrite demo_signals. unfold demo_bands. rewrite demo_vol_rows. simpl.
  split; [reflexivity|]. split; reflexivity.
Qed.

Lemma get_last_signal_rows_witness :
  exists s, get_last_signal demo_state_signals = (Ok s, set_last demo_state_signals s) /\
    last_signal_text s = "Buy"%string /\ timestamp s = 2%Z /\ entry_price s = Some (31 / 20).
Proof.
  destruct demo_cleaned_rows as [r [Hrows [Hsig Hclose]]].
  destruct (get_last_signal_rows demo_state_signals [(2%Z, r)] Hrows) as [_ Hlast].
  destruct (Hlast [] 2%Z r eq_refl) as [Hget [Hts [Hep [_ [_ [v [Hv [Hbuy _]]]]]]]].
  exists (summary_of (symbol demo_state_signals) 2 r). split; [exact Hget|].
  split; [|split; [exact Hts|rewrite Hep; exact Hclose]].
  apply Hbuy. rewrite Hsig in Hv. injection Hv as <-. reflexivity.
Defined.

Lemma trading_signal_events_witness :
  exists df, signal_input demo_state = Some df /\
    length (signal_frame (join_input demo_vol demo_bands P1)) = length df.
Proof.
  destruct (trading_signal_events demo_state (signal_frame (join_input demo_vol demo_bands P1))
              (set_signals demo_state (signal_frame (join_input demo_vol demo_bands P1))) eq_refl)
    as [df [Hdf [Hlen _]]].
  exists df. split; assumption.
Defined.

Lemma signal_frame_defaults_witness :
  exists df, signal_input demo_state = Some df /\
    keys (signal_frame (join_input demo_vol demo_bands P1)) = keys df.
Proof.
  destruct (signal_frame_defaults demo_state (signal_frame (join_input demo_vol demo_bands P1))
              (set_signals demo_state (signal_frame (join_input demo_vol demo_bands P1))) eq_refl)
    as [df [Hdf [Hkeys _]]].
  exists df. split; assumption.
Defined.

Lemma demo_vol_row2 :
  In (2%Z, snd (nth 2 demo_vol (0%Z, nan_vol_row))) demo_vol /\
  yang_vol (snd (nth 2 demo_vol (0%Z, nan_vol_row))) = Some (11 / 60 * root_half) /\
  ying_vol (snd (nth 2 demo_vol (0%Z, nan_vol_row))) = Some root_half /\
  total_vol (snd (nth 2 demo_vol (0%Z, nan_vol_row))) = Some (61 / 60 * root_half) /\
  YYL (snd (nth 2 demo_vol (0%Z, nan_vol_row))) = Some (-4900 / 61).
Proof. rewrite demo_vol_rows. simpl. repeat split; auto. Qed.

Lemma total_vol_ge_max_witness :
  Rmax (11 / 60 * root_half) root_half <= 61 / 60 * root_half.
Proof.
  destruct demo_vol_row2 as [Hin [Ha [Hb [Hv _]]]].
  destruct (total_vol_ge_max true 2 2 P1 _ _ _ _ _ Hin Ha Hb Hv) as [_ [_ [_ H]]].
  exact H.
Defined.

Lemma YYL_in_range_witness : -100 <= -4900 / 61 <= 100.
Proof.
  destruct demo_vol_row2 as [Hin [_ [_ [_ Hy]]]].
  destruct (YYL_in_range true 2 2 P1 _ _ _ Hin Hy) as [_ H].
  exact H.
Defined.


Lemma P_flat_const : forall x, In x (closes P_flat) -> x = 5.
Proof. simpl. intros x Hx. intuition. Qed.

(** Row [window + span - 1] with a missing value: [yang_vol] with the
    simple baseline (window 3, span 1, seven rows), and [YYL] on a flat
    series (window 1, span 1, three rows). *)
Lemma volatility_defined_after_warmup_counterexample :
  ((2 * 3 + 1 <= length P_rise)%nat /\
   exists k row, nth_error (volatility_frame false 3 1 P_rise) 3 = Some (k, row) /\
                 yang_vol row = None) /\
  ((2 * 1 + 1 <= length P_flat)%nat /\
   exists k row, nth_error (volatility_frame true 1 1 P_flat) 1 = Some (k, row) /\
                 YYL row = None).
Proof.
  split; split; [simpl; lia| | simpl; lia|].
  - do 2 eexists. split; [apply volatility_frame_nth; simpl; lia|]. reflexivity.
  - do 2 eexists. split; [apply volatility_frame_nth; simpl; lia|].
    apply (YYL_col_const true 1 (closes P_flat) 5 P_flat_const).
Qed.

Lemma volatility_frame_defined_witness :
  exists k row, nth_error demo_vol 2 = Some (k, row) /\ YYL row <> None /\ YYL_slow row <> None.
Proof.
  assert (H2 : nth_error (volatility_frame true 2 2 P1) 2 = Some (2%Z, snd (nth 2 demo_vol (0%Z, nan_vol_row)))).
  { change (volatility_frame true 2 2 P1) with demo_vol. rewrite demo_vol_rows. reflexivity. }
  assert (Hnz : forall j kj rj, (S 2 - 2 <= j <= 2)%nat ->
            nth_error (volatility_frame true 2 2 P1) j = Some (kj, rj) -> total_vol rj <> Some 0).
  { intros j kj rj Hj. change (volatility_frame true 2 2 P1) with demo_vol. rewrite demo_vol_rows.
    pose proof root_half_pos.
    destruct j as [|[|[|j]]]; try lia; simpl; intros [= <- <-]; simpl; intros [= E]; lra. }
  destruct (volatility_frame_defined true 2 2 P1 2 _ _ ltac:(lia) ltac:(lia) ltac:(simpl; lia) H2 Hnz)
    as [_ [_ [_ [_ [Hy Hs]]]]].
  exists 2%Z, (snd (nth 2 demo_vol (0%Z, nan_vol_row))). split; [exact H2|]. split; assumption.
Defined.

Lemma pan_bands_ordered_witness :
  exists row u l, In (2%Z, row) demo_bands /\ upper_band row = Some u /\
                  lower_band row = Some l /\ l <= u.
Proof.
  assert (Hk : In 2%Z (keys demo_bands)).
  { apply in_band_keys. left. simpl. auto. }
  apply in_map_iff in Hk as [[k row] [Hk Hin]]. simpl in Hk. subst k.
  assert (Ha : get 2 (column yang_vol (volatility_frame true 2 2 P1)) = Some (11 / 60 * root_half)).
  { change (volatility_frame true 2 2 P1) with demo_vol. rewrite demo_vol_rows. reflexivity. }
  assert (Hb : get 2 (column ying_vol (volatility_frame true 2 2 P1)) = Some root_half).
  { change (volatility_frame true 2 2 P1) with demo_vol. rewrite demo_vol_rows. reflexivity. }
  assert (Hm : get 2 (pan_baseline 2 P1) = Some (41 / 30)).
  { pose proof P1_ma as E. cbn [ma_col] in E. unfold pan_baseline. rewrite E. reflexivity. }
  destruct (pan_bands_ordered true 2 2 P1 2 P1 2%Z row _ _ _ Hin Ha Hb Hm)
    as [u [l [Hu [Hl [_ [_ [_ Hlu]]]]]]].
  exists row, u, l. repeat split; assumption.
Defined.

Lemma constant_price_flat_witness :
  exists vf, calculate_volatility (set_price demo_bot (Some P_flat)) =
             (Ok vf, set_vol (set_price demo_bot (Some P_flat)) vf) /\
    forall k row, In (k, row) vf -> YYL row = None.
Proof.
  assert (Hc : forall r, In r P_flat -> close r = 5).
  { intros r Hr. simpl in Hr. intuition; subst r; reflexivity. }
  destruct (constant_price_flat (set_price demo_bot (Some P_flat)) P_flat 5 eq_refl
              ltac:(discriminate) Hc ltac:(simpl; lia) ltac:(simpl; lia)) as [vf [Hvf Hrows]].
  exists vf. split; [exact Hvf|]. intros k row Hin. apply (Hrows k row Hin).
Defined.

Lemma calculate_volatility_raises_iff_witness :
  calculate_volatility (set_price demo_bot (Some P1)) =
  (Ok demo_vol, set_vol (set_price demo_bot (Some P1)) demo_vol) /\ length demo_vol = 3%nat.
Proof.
  destruct (calculate_volatility_raises_iff (set_price demo_bot (Some P1))
              ltac:(simpl; lia) ltac:(simpl; lia)) as [_ H].
  exact (H P1 eq_refl ltac:(discriminate)).
Defined.

Lemma calculate_pan_bands_outcome_witness :
  exists bf, calculate_pan_bands (set_vol (set_price demo_bot (Some P1)) demo_vol) =
             (Ok bf, set_bands (set_vol (set_price demo_bot (Some P1)) demo_vol) bf) /\
    forall k, In k (keys bf) <-> In k (index P1) \/ In k (keys demo_vol).
Proof.
  destruct (calculate_pan_bands_outcome (set_vol (set_price demo_bot (Some P1)) demo_vol)
              ltac:(simpl; lia)) as [_ H].
  destruct (H demo_vol P1 eq_refl eq_refl) as [bf [Hbf [Hkeys _]]].
  exists bf. split; assumption.
Defined.

(** ** Scheduling *)

Local Open Scope Z_scope.

Lemma now_decomp (now : Z) :
  now = (60 * (now / us_per_hour) + minute_of now) * us_per_minute + now mod us_per_minute /\
  0 <= minute_of now < 60 /\ 0 <= now mod us_per_minute < us_per_minute.
Proof.
  unfold minute_of.
  assert (Hu : us_per_hour = us_per_minute * 60) by reflexivity.
  rewrite Hu, <- Z.div_div by (unfold us_per_minute; lia).
  pose proof (Z.div_mod now us_per_minute ltac:(unfold us_per_minute; lia)) as E1.
  pose proof (Z.div_mod (now / us_per_minute) 60 ltac:(lia)) as E2.
  pose proof (Z.mod_pos_bound (now / us_per_minute) 60 ltac:(lia)).
  pose proof (Z.mod_pos_bound now us_per_minute ltac:(unfold us_per_minute; lia)).
  split; [|split; assumption].
  rewrite E1 at 1. rewrite E2 at 1. ring.
Qed.

Lemma minute_of_slot (h m : Z) : 0 <= m < 60 -> minute_of ((60 * h + m) * us_per_minute) = m.
Proof.
  intros Hm. unfold minute_of.
  rewrite Z.div_mul by (unfold us_per_minute; lia).
  rewrite Z.add_comm, Z.mul_comm, Z_mod_plus_full. now apply Z.mod_small.
Qed.

Lemma replace_minute_slot (h m x : Z) : 0 <= m < 60 ->
  replace_minute ((60 * h + m) * us_per_minute) x = (60 * h + x) * us_per_minute.
Proof. intros Hm. unfold replace_minute. rewrite minute_of_slot by exact Hm. ring. Qed.

Lemma slot_divide (i h x : Z) : 60 mod i = 0 -> x mod i = 0 -> 0 < i ->
  (i * us_per_minute | (60 * h + x) * us_per_minute).
Proof.
  intros H60 Hx Hi. apply Z.mul_divide_mono_r. apply Z.divide_add_r.
  - apply Z.divide_mul_l. apply Z.mod_divide; lia.
  - apply Z.mod_divide; lia.
Qed.

Lemma least_multiple (q now t : Z) : 0 < q -> (q | t) -> now < t <= now + q ->
  forall t', (q | t') -> now < t' -> t <= t'.
Proof.
  intros Hq [a ->] Hb t' [b ->] Hlt.
  assert (a - 1 < b) by nia. nia.
Qed.

(** X1: for an interval of 15, 30 or 60 minutes and a time that leaves an hour
    before the largest datetime, get_next_run_time returns the first time
    after now that is a multiple of the interval (whole minutes, zero
    seconds), at most one interval after now. *)
Theorem get_next_run_time_next_slot (interval_minutes now : Z)
  (Hi : interval_minutes = 15 \/ interval_minutes = 30 \/ interval_minutes = 60)
  (Hnow : 0 <= now <= datetime_max - us_per_hour) :
  exists t, get_next_run_time interval_minutes now = Some t /\
    (interval_minutes * us_per_minute | t) /\
    now < t <= now + interval_minutes * us_per_minute /\
    (forall t', (interval_minutes * us_per_minute | t') -> now < t' -> t <= t').
Proof.
  destruct (now_decomp now) as (Hd & Hm & Hr).
  set (h := now / us_per_hour) in *. set (m := minute_of now) in *.
  set (r := now mod us_per_minute) in *.
  assert (Hnext : now - r = (60 * h + m) * us_per_minute) by lia.
  assert (Hhour : add_hour ((60 * h + m) * us_per_minute) = Some ((60 * (h + 1) + m) * us_per_minute)).
  { unfold add_hour. replace ((60 * h + m) * us_per_minute + us_per_hour)
      with ((60 * (h + 1) + m) * us_per_minute) by (unfold us_per_hour, us_per_minute; ring).
    rewrite (proj2 (Z.leb_le _ _)); [reflexivity|].
    unfold us_per_hour, us_per_minute in *. lia. }
  assert (Hsl : forall x, replace_minute ((60 * h + m) * us_per_minute) x = (60 * h + x) * us_per_minute)
    by (intros; now apply replace_minute_slot).
  assert (Hsl1 : replace_minute ((60 * (h + 1) + m) * us_per_minute) 0 = (60 * (h + 1) + 0) * us_per_minute)
    by now apply replace_minute_slot.
  assert (Fin : forall x, 60 mod interval_minutes = 0 -> x mod interval_minutes = 0 ->
     now < (60 * h + x) * us_per_minute <= now + interval_minutes * us_per_minute ->
     exists t, Some ((60 * h + x) * us_per_minute) = Some t /\
       (interval_minutes * us_per_minute | t) /\
       now < t <= now + interval_minutes * us_per_minute /\
       (forall t', (interval_minutes * us_per_minute | t') -> now < t' -> t <= t')).
  { intros x H60 Hx Hb. exists ((60 * h + x) * us_per_minute).
    assert (Hdiv : (interval_minutes * us_per_minute | (60 * h + x) * us_per_minute))
      by (apply slot_divide; lia).
    split; [reflexivity|]. split; [exact Hdiv|]. split; [exact Hb|].
    apply least_multiple; [unfold us_per_minute; lia | exact Hdiv | exact Hb]. }
  unfold get_next_run_time. fold m. fold r. rewrite Hnext, Hhour. cbn [option_map].
  rewrite !Hsl, Hsl1. replace (60 * (h + 1) + 0) with (60 * h + 60) by ring.
  unfold us_per_minute in Hd, Hr, Fin |- *.
  destruct Hi as [-> | [-> | ->]]; cbn [Z.eqb Pos.eqb].
  - destruct (Z.ltb_spec m 15); [apply Fin; [reflexivity | reflexivity | lia]|].
    destruct (Z.ltb_spec m 30); [apply Fin; [reflexivity | reflexivity | lia]|].
    destruct (Z.ltb_spec m 45); [apply Fin; [reflexivity | reflexivity | lia]|].
    apply Fin; [reflexivity | reflexivity | lia].
  - destruct (Z.ltb_spec m 30); [apply Fin; [reflexivity | reflexivity | lia]|].
    apply Fin; [reflexivity | reflexivity | lia].
  - apply Fin; [reflexivity | reflexivity | lia].
Qed.

Local Open Scope R_scope.

(** ** Calls made by the bot methods *)

Lemma appends_ret {A : Type} (a : A) : appends (aret a).
Proof. intros ag tr. unfold aret. now rewrite app_nil_r. Qed.

Lemma appends_raise {A : Type} (e : exc) : appends (@araise A e).
Proof. intros ag tr. unfold araise. now rewrite app_nil_r. Qed.

Lemma appends_get_agent : appends get_agent.
Proof. intros ag tr. unfold get_agent. now rewrite app_nil_r. Qed.

Lemma appends_emit (ev : Event) : appends (emit ev).
Proof. intros ag tr. reflexivity. Qed.

Lemma appends_put_position (p : string) : appends (put_position p).
Proof. intros ag tr. unfold put_position. now rewrite app_nil_r. Qed.

Lemma appends_lift {A : Type} (m : M A) : appends (lift m).
Proof.
  intros ag tr. unfold lift; cbn [fst snd].
  destruct (m (core ag)) as [[a|e] b]; now rewrite app_nil_r.
Qed.

Lemma appends_bind {A B : Type} (m : AM A) (k : A -> AM B) :
  appends m -> (forall a, appends (k a)) -> appends (abind m k).
Proof.
  intros Hm Hk ag tr. unfold abind. rewrite Hm.
  destruct (m (ag, [])) as [[a|e] [ag' evs]].
  - rewrite Hk. rewrite (Hk a ag' evs).
    destruct (k a (ag', [])) as [r [ag'' evs']]. now rewrite app_assoc.
  - reflexivity.
Qed.

Lemma appends_catch {A : Type} (m : AM A) (h : exc -> AM A) :
  appends m -> (forall e, appends (h e)) -> appends (acatch m h).
Proof.
  intros Hm Hh ag tr. unfold acatch. rewrite Hm.
  destruct (m (ag, [])) as [[a|e] [ag' evs]].
  - reflexivity.
  - rewrite Hh. rewrite (Hh e ag' evs).
    destruct (h e (ag', [])) as [r [ag'' evs']]. now rewrite app_assoc.
Qed.

Lemma appends_call {A : Type} (ev : Event) (r : Response A) : appends (call ev r).
Proof.
  unfold call. apply appends_bind; [apply appends_emit|].
  intros _. destruct r; [apply appends_ret | apply appends_raise].
Qed.

Ltac appends_tac :=
  repeat first
    [ apply appends_bind; [|intro]
    | apply appends_catch; [|intro]
    | apply appends_ret | apply appends_raise | apply appends_get_agent
    | apply appends_emit | apply appends_put_position | apply appends_lift
    | apply appends_call
    | progress cbv zeta
    | match goal with
      | |- appends (match ?x with _ => _ end) => destruct x
      | |- appends (if ?b then _ else _) => destruct b
      end ].

Lemma appends_last_vol_row : appends last_vol_row.
Proof. unfold last_vol_row. appends_tac. Qed.

Lemma appends_execute_trade (W : World) : appends (execute_trade W).
Proof. unfold execute_trade. appends_tac. Qed.

Lemma appends_notion_update (W : World) : appends (notion_update W).
Proof. unfold notion_update. appends_tac. Qed.

Lemma appends_send_telegram_message (W : World) (msg : Message) :
  appends (send_telegram_message W msg).
Proof. unfold send_telegram_message. appends_tac. Qed.

Lemma appends_run (W : World) : appends (run W).
Proof.
  unfold run. appends_tac; apply appends_send_telegram_message.
Qed.


Lemma execute_trade_calls (W : World) (ag : Agent) :
  let '(_, (ag', calls)) := execute_trade W (ag, []) in
  core ag' = core ag /\ (length (filter is_order calls) <= 1)%nat /\
  forall ev, In ev calls -> is_order ev = true ->
    exists sd, last_signal (core ag) = Some sd /\
    ((last_signal_text sd = "Buy"%string /\ position ag = "neutral"%string /\
      exists k, get_balance W "KRW" = Returned (Some k) /\
                ev = BuyMarketOrder (symbol (core ag)) (k * (3 / 10))) \/
     (last_signal_text sd = "Sell"%string /\ position ag = "long"%string /\
      exists cur v, nth_error (py_split "-" (symbol (core ag))) 1 = Some cur /\
                    get_balance W cur = Returned (Some v) /\
                    ev = SellMarketOrder (symbol (core ag)) v)).
Proof.
  unfold execute_trade, call, emit, put_position, abind, get_agent, acatch, aret, araise;
    cbn [fst snd].
  destruct (last_signal (core ag)) as [sd|] eqn:Els.
  2:{ split; [reflexivity|]. split; [cbn; lia|]. intros ev []. }
  split_matches;
    cbn [fst snd app set_position core filter is_order length In] in *;
    (split; [reflexivity|]); (split; [cbn; lia|]);
    intros ev Hin Hord; repeat (destruct Hin as [<-|Hin]; [|]); try contradiction;
    cbn in Hord; try discriminate;
    exists sd; (split; [reflexivity|]);
    strings_true;
    first [ left; split; [assumption|]; split; [assumption|];
            eexists; split; [reflexivity|reflexivity]
          | right; split; [assumption|]; split; [assumption|];
            do 2 eexists; split; [first [reflexivity | eassumption]|];
            split; [eassumption|reflexivity] ].
Qed.


(** X8: execute_trade changes the position only from neutral to long after an
    accepted buy order, and from long to neutral after an accepted sell
    order (a non-empty answer without an "error" key). *)
Theorem execute_trade_position (W : World) (ag : Agent) (tr : list Event) :
  let '(r, (ag', _)) := execute_trade W (ag, tr) in
  position ag' = position ag \/
  (position ag = "neutral"%string /\ position ag' = "long"%string /\
   exists a d, buy_market_order W (symbol (core ag)) a = Returned (Some d) /\
     d <> [] /\ dict_has "error" d = false /\ r = POk (Bought (symbol (core ag)) a)) \/
  (position ag = "long"%string /\ position ag' = "neutral"%string /\
   exists v d, sell_market_order W (symbol (core ag)) v = Returned (Some d) /\
     d <> [] /\ dict_has "error" d = false /\ r = POk (Sold v (symbol (core ag)))).
Proof.
  unfold execute_trade, call, emit, put_position, abind, get_agent, acatch, aret, araise;
    cbn [fst snd].
  destruct (last_signal (core ag)) as [sd|] eqn:Els; [|cbn; left; reflexivity].
  split_matches; cbn [fst snd set_position position] in *; strings_true;
  first
    [ left; reflexivity
    | match goal with H : dict_truthy None = true |- _ => discriminate H end
    | right; left; split; [assumption|]; split; [reflexivity|];
      do 2 eexists; split; [eassumption|];
      split; [destruct d; discriminate | split; [now apply negb_true_iff | reflexivity]]
    | right; right; split; [assumption|]; split; [reflexivity|];
      do 2 eexists; split; [eassumption|];
      split; [destruct d; discriminate | split; [now apply negb_true_iff | reflexivity]] ].
Qed.

Lemma py_split_nosep (sep : ascii) (s : string) :
  ~ In sep (list_ascii_of_string s) -> py_split sep s = [s].
Proof.
  induction s as [|c s IH]; intros H; [reflexivity|].
  cbn [py_split]. destruct (Ascii.eqb_spec c sep) as [->|Hne].
  - exfalso. apply H. now left.
  - rewrite IH; [reflexivity|]. intros Hin. apply H. now right.
Qed.

Lemma py_split_app (sep : ascii) (a b : string) :
  ~ In sep (list_ascii_of_string a) ->
  py_split sep (a ++ String sep b) = a :: py_split sep b.
Proof.
  induction a as [|c a IH]; intros H.
  - cbn [append py_split]. now rewrite Ascii.eqb_refl.
  - cbn [append py_split]. destruct (Ascii.eqb_spec c sep) as [->|Hne].
    + exfalso. apply H. now left.
    + rewrite IH; [reflexivity|]. intros Hin. apply H. now right.
Qed.

(** X2: for a symbol "BASE-QUOTE" without other dashes, get_current_position
    asks the balance of QUOTE once, and answers "long" exactly when that
    balance is a positive number, "neutral" otherwise. *)
Theorem get_current_position_quote (W : World) (base quote : string)
  (Hb : ~ In "-"%char (list_ascii_of_string base))
  (Hq : ~ In "-"%char (list_ascii_of_string quote)) :
  let '(pos, calls) := get_current_position W (base ++ "-" ++ quote) in
  calls = [GetBalance quote] /\
  (pos = "long"%string <-> exists b, get_balance W quote = Returned (Some b) /\ b > 0) /\
  (pos = "long"%string \/ pos = "neutral"%string).
Proof.
  unfold get_current_position. cbn [append].
  rewrite (py_split_app _ _ _ Hb), (py_split_nosep _ _ Hq). cbn [nth_error].
  split; [reflexivity|].
  destruct (get_balance W quote) as [[b|]|m].
  - destruct (Rgt_dec b 0) as [Hgt|Hle].
    + split; [|now left]. split; [intros _; now exists b|reflexivity].
    + split; [|now right]. split; [discriminate|].
      intros (b' & Hr & Hb'). injection Hr as <-. contradiction.
  - split; [|now right]. split; [discriminate|]. intros (b' & Hr & _). discriminate.
  - split; [|now right]. split; [discriminate|]. intros (b' & Hr & _). discriminate.
Qed.

(** X3: for a symbol without a dash, get_current_position asks no balance and
    answers "neutral". *)
Theorem get_current_position_no_dash (W : World) (sym : string)
  (H : ~ In "-"%char (list_ascii_of_string sym)) :
  get_current_position W sym = ("neutral"%string, []).
Proof. unfold get_current_position. now rewrite (py_split_nosep _ _ H). Qed.


(** X10: send_telegram_message posts the message once to the bot URL of the
    token when both the token and the chat id are non-empty, does nothing
    otherwise, and never raises. *)
Theorem send_telegram_message_posts (W : World) (msg : Message) (ag : Agent) (tr : list Event) :
  let '(r, (ag', tr')) := send_telegram_message W msg (ag, tr) in
  r = POk tt /\ ag' = ag /\
  ((exists token chat, getenv W "TELEGRAM_BOT_TOKEN" = Some token /\
      getenv W "TELEGRAM_CHAT_ID" = Some chat /\ token <> ""%string /\ chat <> ""%string /\
      tr' = tr ++ [TelegramPost ("https://api.telegram.org/bot" ++ token ++ "/sendMessage") chat msg]) \/
   ((str_truthy (getenv W "TELEGRAM_BOT_TOKEN") = false \/
     str_truthy (getenv W "TELEGRAM_CHAT_ID") = false) /\ tr' = tr)).
Proof.
  unfold send_telegram_message, emit, aret.
  destruct (getenv W "TELEGRAM_BOT_TOKEN") as [[|t0 t]|];
  destruct (getenv W "TELEGRAM_CHAT_ID") as [[|c0 c]|]; cbn [fst snd str_truthy];
    (split; [reflexivity|]); (split; [reflexivity|]);
    first [ right; split; [now (left + right)|reflexivity]
          | left; do 2 eexists; repeat split; discriminate ].
Qed.

(** X9: notion_update raises ValueError, making no call, when no last signal
    is stored. *)
Theorem notion_update_requires_signal (W : World) (ag : Agent) (tr : list Event)
  (H : last_signal (core ag) = None) :
  exists m, notion_update W (ag, tr) = (PErr (Exc (ValueError m)), (ag, tr)).
Proof. unfold notion_update, abind, get_agent. cbn [fst]. rewrite H. eexists; reflexivity. Qed.

(** X12: run_bot passes stop_loss_percentage to __init__, which has no such
    parameter: the constructor raises TypeError, and run_bot only prints the
    error, making no exchange call. *)
Theorem run_bot_always_fails (W : World) (interval_minutes : Z) :
  run_bot W interval_minutes =
  [Printed (PrintRunError (BindTypeError (UnexpectedKeyword "stop_loss_percentage")))].
Proof. reflexivity. Qed.

(** What [main] prints for a rejected input. *)
Lemma valid_interval_dec (x : option Z) :
  match x with Some n => existsb (Z.eqb n) [15; 30; 60]%Z | None => false end = true <-> valid_interval x.
Proof.
  unfold valid_interval. destruct x as [n|].
  - rewrite existsb_exists. split.
    + intros (m & Hm & E). apply Z.eqb_eq in E. subst. now exists m.
    + intros (m & Hm & Hin). injection Hm as <-. exists n. split; [exact Hin|]. apply Z.eqb_refl.
  - split; [discriminate|]. intros (m & Hm & _). discriminate.
Qed.

Lemma read_interval_spec (inputs : list (option Z)) :
  (exists n pre post, inputs = pre ++ Some n :: post /\ In n [15; 30; 60]%Z /\
     (forall x, In x pre -> ~ valid_interval x) /\
     read_interval inputs = (POk n, map rejection pre)) \/
  ((forall x, In x inputs -> ~ valid_interval x) /\
   read_interval inputs = (PErr EOFError, map rejection inputs)).
Proof.
  induction inputs as [|x rest IH].
  - right. split; [intros x []|reflexivity].
  - destruct (match x with Some n => existsb (Z.eqb n) [15; 30; 60]%Z | None => false end) eqn:Ev.
    + destruct x as [n|]; [|discriminate]. left. exists n, [], rest.
      split; [reflexivity|]. split.
      * destruct (proj1 (valid_interval_dec (Some n)) Ev) as (m & Hm & Hin).
        injection Hm as <-. exact Hin.
      * split; [intros y []|]. cbn [read_interval]. now rewrite Ev.
    + assert (Hx : ~ valid_interval x) by (rewrite <- valid_interval_dec, Ev; discriminate).
      assert (Hr : read_interval (x :: rest) =
                   (fst (read_interval rest), rejection x :: snd (read_interval rest))).
      { cbn [read_interval]. destruct x as [n|].
        - rewrite Ev. now destruct (read_interval rest).
        - now destruct (read_interval rest). }
      rewrite Hr. destruct IH as [(n & pre & post & -> & Hn & Hpre & Hri) | (Hall & Hri)]; rewrite Hri.
      * left. exists n, (x :: pre), post. split; [reflexivity|]. split; [exact Hn|].
        split; [|reflexivity]. intros y [<-|Hy]; [exact Hx | exact (Hpre y Hy)].
      * right. split; [|reflexivity]. intros y [<-|Hy]; [exact Hx | exact (Hall y Hy)].
Qed.

(** X13: main prints a rejection for each invalid interval read, and raises
    EOFError when input ends first; after a valid one it creates the
    running-file, and the bot constructor raises TypeError, so main prints
    the error and ends without sending any message or scheduling a job. *)
Theorem main_stops_after_init_error (W : World) (inputs : list (option Z)) (start_time : Z)
  (schedule : Agent -> list Event) :
  (exists n pre post, inputs = pre ++ Some n :: post /\ In n [15; 30; 60]%Z /\
     (forall x, In x pre -> ~ valid_interval x) /\
     main W inputs start_time schedule =
       (POk tt, Printed (PrintText "YingYang Trading Bot started") :: map rejection pre ++
                [WriteFile "bot_running.txt" "Bot is running. Delete this file to stop the bot.";
                 Printed (PrintInitError (BindTypeError (UnexpectedKeyword "stop_loss_percentage")))])) \/
  ((forall x, In x inputs -> ~ valid_interval x) /\
   main W inputs start_time schedule =
     (PErr EOFError, Printed (PrintText "YingYang Trading Bot started") :: map rejection inputs)).
Proof.
  unfold main. destruct (read_interval_spec inputs) as [(n & pre & post & Hi & Hn & Hpre & Hr) | (Hall & Hr)];
    rewrite Hr.
  - left. exists n, pre, post. split; [exact Hi|]. split; [exact Hn|]. split; [exact Hpre|].
    cbn [construct bind_args]. cbn. now rewrite <- app_assoc.
  - right. split; [exact Hall|reflexivity].
Qed.

Lemma keeps_download_data (f : option Price) : keeps_symbol (download_data f).
Proof. keeps_tac. Qed.
Lemma keeps_calculate_volatility : keeps_symbol calculate_volatility.
Proof. keeps_tac. Qed.
Lemma keeps_calculate_pan_bands : keeps_symbol calculate_pan_bands.
Proof. keeps_tac. Qed.
Lemma keeps_trading_signal : keeps_symbol trading_signal.
Proof. keeps_tac. Qed.

Lemma bind_ok_inv {A B : Type} (m : M A) (k : A -> M B) (st b : Bot) (x : B) :
  bind m k st = (Ok x, b) -> exists a st', m st = (Ok a, st') /\ k a st' = (Ok x, b).
Proof.
  unfold bind. destruct (m st) as [[a|e] st'] eqn:E; [|discriminate].
  intros H. now exists a, st'.
Qed.

Lemma get_last_signal_ok (st b : Bot) (s : Summary) :
  get_last_signal st = (Ok s, b) -> last_signal b = Some s /\ symbol b = symbol st.
Proof.
  cbv [get_last_signal bind get_bot put_bot ret raise].
  destruct (signals st); [|discriminate].
  destruct (ying_yang_vol st); [|discriminate].
  destruct (price st); [|destruct (pan_bands st); discriminate].
  destruct (pan_bands st); [|discriminate].
  destruct (last_opt _) as [[k r]|]; [|discriminate].
  intros H. injection H as <- <-. now split.
Qed.

Lemma analysis_ok (f : option Price) (st b : Bot) (s : Summary) :
  analysis f st = (Ok s, b) -> last_signal b = Some s /\ symbol b = symbol st.
Proof.
  unfold analysis. intros H.
  apply bind_ok_inv in H as (a1 & st1 & H1 & H).
  apply bind_ok_inv in H as (a2 & st2 & H2 & H).
  apply bind_ok_inv in H as (a3 & st3 & H3 & H).
  apply bind_ok_inv in H as (a4 & st4 & H4 & H).
  apply get_last_signal_ok in H as [Hl Hs]. split; [exact Hl|].
  rewrite Hs.
  pose proof (keeps_trading_signal st3) as K4. rewrite H4 in K4. cbn in K4. rewrite K4.
  pose proof (keeps_calculate_pan_bands st2) as K3. rewrite H3 in K3. cbn in K3. rewrite K3.
  pose proof (keeps_calculate_volatility st1) as K2. rewrite H2 in K2. cbn in K2. rewrite K2.
  pose proof (keeps_download_data f st) as K1. rewrite H1 in K1. exact K1.
Qed.

Lemma send_shape (W : World) (msg : Message) (ag : Agent) (tr : list Event) :
  exists c, send_telegram_message W msg (ag, tr) = (POk tt, (ag, tr ++ c)) /\
    forall ev, In ev c -> exists url chat, ev = TelegramPost url chat msg.
Proof.
  unfold send_telegram_message, emit, aret.
  destruct (getenv W "TELEGRAM_BOT_TOKEN") as [[|t0 t]|];
  destruct (getenv W "TELEGRAM_CHAT_ID") as [[|c0 c]|]; cbn [fst snd];
    first [ exists []; rewrite app_nil_r; split; [reflexivity | intros ev []]
          | eexists; split; [reflexivity|]; intros ev [<-|[]]; eauto ].
Qed.

Lemma notion_shape (W : World) (ag : Agent) (tr : list Event) :
  exists r c, notion_update W (ag, tr) = (r, (ag, tr ++ c)) /\
    forall ev, In ev c -> is_order ev = false.
Proof.
  unfold notion_update, last_vol_row, call, emit, abind, get_agent, aret, araise; cbn [fst snd].
  destruct (last_signal (core ag)); cbn [fst snd];
    [|exists (PErr (Exc (ValueError "Last signal must be generated before updating Notion."))), [];
      rewrite app_nil_r; split; [reflexivity | intros ev []]].
  destruct (ying_yang_vol (core ag)); cbn [fst snd];
    [|eexists; exists []; rewrite app_nil_r; split; [reflexivity | intros ev []]].
  destruct (last_opt v) as [[k r]|]; cbn [fst snd];
    [|eexists; exists []; rewrite app_nil_r; split; [reflexivity | intros ev []]].
  destruct (pages_create W _); cbn [fst snd];
    (eexists; eexists; split; [reflexivity | intros ev [<-|[]]; reflexivity]).
Qed.

Lemma last_vol_row_shape (ag : Agent) (tr : list Event) :
  exists r, last_vol_row (ag, tr) = (r, (ag, tr)).
Proof.
  unfold last_vol_row, abind, get_agent, aret, araise; cbn [fst snd].
  destruct (ying_yang_vol (core ag)); [|eexists; reflexivity].
  destruct (last_opt v) as [[k r]|]; eexists; reflexivity.
Qed.

Lemma appends_split {A : Type} (m : AM A) (Hm : appends m) (ag : Agent) (tr : list Event) :
  m (ag, tr) = (fst (m (ag, [])), (fst (snd (m (ag, []))), tr ++ snd (snd (m (ag, []))))).
Proof. rewrite Hm. now destruct (m (ag, [])) as [r [ag' evs]]. Qed.

Lemma orders_after (G : Event) (cl rest : list Event) (P : Event -> Prop) :
  is_order G = false -> (forall ev, In ev rest -> is_order ev = false) ->
  (length (filter is_order cl) <= 1)%nat ->
  (forall ev, In ev cl -> is_order ev = true -> P ev) ->
  (length (filter is_order ((G :: cl) ++ rest)) <= 1)%nat /\
  (forall ev, In ev ((G :: cl) ++ rest) -> is_order ev = true -> P ev).
Proof.
  intros HG Hrest Hlen Hcl.
  assert (Hr : filter is_order rest = []).
  { induction rest as [|x xs IH]; [reflexivity|]. cbn [filter].
    rewrite (Hrest x (or_introl eq_refl)). apply IH. intros ev Hin. apply Hrest. now right. }
  split.
  - cbn [app filter]. rewrite HG, filter_app, Hr, app_nil_r. exact Hlen.
  - intros ev Hin Hord. cbn [app] in Hin. destruct Hin as [<-|Hin]; [congruence|].
    apply in_app_iff in Hin as [Hin|Hin]; [now apply Hcl|].
    rewrite (Hrest ev Hin) in Hord. discriminate.
Qed.

(** X11: one run of the bot never raises, places at most one order, and places
    one only when the analysis succeeds with a Buy signal while neutral
    (30% of the KRW balance) or a Sell signal while long (the whole coin
    balance); when the analysis fails it only reports the error to Telegram. *)
Theorem run_orders_follow_last_signal (W : World) (ag : Agent) :
  let fetched := get_ohlcv W (symbol (core ag)) (interval ag) (count ag) in
  let '(r, (_, calls)) := run W (ag, []) in
  r = POk tt /\
  (length (filter is_order calls) <= 1)%nat /\
  (forall ev, In ev calls -> is_order ev = true ->
     exists s b, analysis fetched (core ag) = (Ok s, b) /\
     ((last_signal_text s = "Buy"%string /\ position ag = "neutral"%string /\
       exists k, get_balance W "KRW" = Returned (Some k) /\
                 ev = BuyMarketOrder (symbol (core ag)) (k * (3 / 10))) \/
      (last_signal_text s = "Sell"%string /\ position ag = "long"%string /\
       exists cur v, nth_error (py_split "-" (symbol (core ag))) 1 = Some cur /\
                     get_balance W cur = Returned (Some v) /\
                     ev = SellMarketOrder (symbol (core ag)) v))) /\
  (forall e b, analysis fetched (core ag) = (Err e, b) ->
     forall ev, In ev calls ->
       ev = GetOhlcv (symbol (core ag)) (interval ag) (count ag) \/
       exists url chat, ev = TelegramPost url chat (BotError (Exc e))).
Proof.
  intros fetched.
  cbv [run acatch abind get_agent emit lift aret araise fst snd]. fold fetched.
  destruct (analysis fetched (core ag)) as [[s|e] b] eqn:Ea.
  - destruct (analysis_ok _ _ _ _ Ea) as [Hls Hsym].
    pose proof (execute_trade_calls W (set_core ag b)) as Het.
    cbn [app]. rewrite (appends_split _ (appends_execute_trade W)).
    destruct (execute_trade W (set_core ag b, [])) as [rt [ag2 cl]] eqn:Et.
    cbn [fst snd core set_core position symbol] in Het |- *.
    destruct Het as (Hcore & Hlen & Hcl).
    set (G := GetOhlcv (symbol (core ag)) (interval ag) (count ag)).
    assert (HG : is_order G = false) by reflexivity.
    assert (Hcl' : forall ev, In ev cl -> is_order ev = true ->
      exists s0 b0, (Ok s, b) = (Ok s0, b0) /\
      ((last_signal_text s0 = "Buy"%string /\ position ag = "neutral"%string /\
        exists k, get_balance W "KRW" = Returned (Some k) /\
                  ev = BuyMarketOrder (symbol (core ag)) (k * (3 / 10))) \/
       (last_signal_text s0 = "Sell"%string /\ position ag = "long"%string /\
        exists cur v, nth_error (py_split "-" (symbol (core ag))) 1 = Some cur /\
                      get_balance W cur = Returned (Some v) /\
                      ev = SellMarketOrder (symbol (core ag)) v))).
    { intros ev Hin Hord. destruct (Hcl ev Hin Hord) as (sd & Hsd & Hcase).
      rewrite Hls in Hsd. injection Hsd as <-. rewrite Hsym in Hcase.
      exists s, b. split; [reflexivity | exact Hcase]. }
    destruct rt as [trade|err].
    + destruct (notion_shape W ag2 ([G] ++ cl)) as (rn & cn & Hn & Hcn). rewrite Hn.
      destruct rn as [un|err]; cbn beta iota zeta.
      * destruct (last_signal (core ag2)) as [sd|].
        -- destruct (last_vol_row_shape ag2 (([G] ++ cl) ++ cn)) as (rv & Hv). rewrite Hv.
           destruct rv; cbn beta iota zeta; run_leaf send_shape orders_after.
        -- run_leaf send_shape orders_after.
      * run_leaf send_shape orders_after.
    + run_leaf send_shape orders_after.
  - cbn [app]. set (G := GetOhlcv (symbol (core ag)) (interval ag) (count ag)).
    destruct (send_shape W (BotError (Exc e)) (set_core ag b) [G]) as (c & Hc & Hc').
    rewrite Hc. cbn beta iota zeta.
    assert (Hnc : forall ev, In ev c -> is_order ev = false)
      by (intros ev Hin; destruct (Hc' ev Hin) as (u & ch & ->); reflexivity).
    assert (Hf : filter is_order c = []).
    { clear Hc. induction c as [|x xs IH]; [reflexivity|]. cbn [filter].
      rewrite (Hnc x (or_introl eq_refl)). apply IH.
      - intros ev Hin. apply Hc'. now right.
      - intros ev Hin. apply Hnc. now right. }
    split; [reflexivity|]. split; [cbn [app filter]; rewrite Hf; cbn; lia|]. split.
    + intros ev [<-|Hin] Hord; [discriminate|]. rewrite (Hnc ev Hin) in Hord. discriminate.
    + intros e0 b0 He ev [<-|Hin]; [now left|]. injection He as <- _.
      right. exact (Hc' ev Hin).
Qed.


(** ** Witnesses *)

Lemma get_next_run_time_next_slot_witness :
  (15 = 15 \/ 15 = 30 \/ 15 = 60)%Z /\
  (0 <= 7 * 3600000000 + 44 * 60000000 + 59999999 <= datetime_max - us_per_hour)%Z /\
  exists t, get_next_run_time 15 (7 * 3600000000 + 44 * 60000000 + 59999999) = Some t /\
    (15 * us_per_minute | t)%Z /\
    (7 * 3600000000 + 44 * 60000000 + 59999999 < t <=
       7 * 3600000000 + 44 * 60000000 + 59999999 + 15 * us_per_minute)%Z /\
    (forall t', (15 * us_per_minute | t')%Z ->
       (7 * 3600000000 + 44 * 60000000 + 59999999 < t')%Z -> (t <= t')%Z).
Proof.
  assert (Hi : (15 = 15 \/ 15 = 30 \/ 15 = 60)%Z) by (left; reflexivity).
  assert (Hn : (0 <= 7 * 3600000000 + 44 * 60000000 + 59999999 <= datetime_max - us_per_hour)%Z)
    by (unfold datetime_max, us_per_hour; lia).
  exact (conj Hi (conj Hn (get_next_run_time_next_slot 15 _ Hi Hn))).
Defined.

Lemma get_current_position_quote_witness :
  ~ In "-"%char (list_ascii_of_string "KRW") /\ ~ In "-"%char (list_ascii_of_string "BTC") /\
  let '(pos, calls) := get_current_position demo_world ("KRW" ++ "-" ++ "BTC") in
  calls = [GetBalance "BTC"] /\
  (pos = "long"%string <-> exists b, get_balance demo_world "BTC" = Returned (Some b) /\ b > 0) /\
  (pos = "long"%string \/ pos = "neutral"%string).
Proof.
  assert (Hb : ~ In "-"%char (list_ascii_of_string "KRW"))
    by (cbn; intros [H|[H|[H|[]]]]; discriminate H).
  assert (Hq : ~ In "-"%char (list_ascii_of_string "BTC"))
    by (cbn; intros [H|[H|[H|[]]]]; discriminate H).
  exact (conj Hb (conj Hq (get_current_position_quote demo_world "KRW" "BTC" Hb Hq))).
Defined.

Lemma get_current_position_no_dash_witness :
  ~ In "-"%char (list_ascii_of_string "BTC") /\
  get_current_position demo_world "BTC" = ("neutral"%string, []).
Proof.
  assert (H : ~ In "-"%char (list_ascii_of_string "BTC"))
    by (cbn; intros [E|[E|[E|[]]]]; discriminate E).
  exact (conj H (get_current_position_no_dash demo_world "BTC" H)).
Defined.

Lemma notion_update_requires_signal_witness :
  last_signal (core demo_agent) = None /\
  exists m, notion_update demo_world (demo_agent, []) =
            (PErr (Exc (ValueError m)), (demo_agent, [])).
Proof.
  assert (H : last_signal (core demo_agent) = None) by reflexivity.
  exact (conj H (notion_update_requires_signal demo_world demo_agent [] H)).
Defined.
